(** * Verification of the client-side histogram caches (src/client/cache.ts)

    The development embeds the two cache strategies of [cache.ts]:
    [SimpleCache] (exact index) and [SnappingCache] (nearest stored index,
    found by binary search), their shared base class [Cache] and the free
    function [combineRanges].

    Modelling conventions.
    - Coordinates ([index], [start], [end]) and bucket counts are JavaScript
      numbers that the callers keep integral; they are values of [Z].
    - A method is a computation over the receiver [this]: it may read and
      replace the fields of [this], write to the console, return a value or
      throw.  Loops whose termination is not structural carry a fuel
      argument and end in [OutOfFuel] when it is exhausted; the theorems
      show that this never happens.
    - [this.cache] is a plain object used as a dictionary.  Its own
      properties are the list of them in the order in which [Object.keys]
      enumerates them: names that are array indices first, in ascending
      numeric order, then all other names in creation order.
    - [this.cache[name]] and [name in this.cache] also find what the object
      inherits from [Object.prototype]: the twelve standard properties
      ([constructor], [toString], [__proto__], ...).  A [SimpleCache] writes
      through such a name into the built-in object it finds; these objects
      are kept beside the fields of the instance as its [realm].  A
      [SnappingCache] never writes into them.  Each instance is considered
      in a realm that starts as the standard defines it and that only the
      instance itself changes.
    - The inner dictionary of [SimpleCache], from index to snapshot, is only
      ever read by key and is a [gmap Z].
    - Snapshots are kept and handed out by reference in the source; the only
      snapshots a method writes into are those that [SimpleCache] finds as
      the value of a dimension name through [Object.prototype], and these
      carry the assigned elements with them; all others are values, and
      every call of [set] is given an array of its own.  Where a call
      goes on to subtract the elements of an array into which arrays were
      assigned, its arithmetic is not followed and the call ends in
      [Untyped]. *)

From Stdlib Require Import ZArith Lia Ascii.
From stdpp Require Import gmap strings list pretty sorting.

Local Open Scope string_scope.
Local Open Scope list_scope.

(** ** Computations of methods *)

Inductive outcome (A : Type) : Type :=
| Ret (a : A)
| Throw (msg : string)
| OutOfFuel
| Untyped.
Arguments Ret {A} a.
Arguments Throw {A} msg.
Arguments OutOfFuel {A}.
Arguments Untyped {A}.

(** What a call leaves behind: the receiver after the call, the lines written
    with [console.error] during the call, and how the call ended. *)
Record run (S A : Type) : Type := Run {
  final : S;
  console : list string;
  result : outcome A
}.
Arguments Run {S A} final console result.
Arguments final {S A} r.
Arguments console {S A} r.
Arguments result {S A} r.

Definition M (S A : Type) : Type := S → run S A.

Definition ret {S A} (a : A) : M S A := λ s, Run s [] (Ret a).

Definition bind {S A B} (m : M S A) (f : A → M S B) : M S B := λ s,
  match m s with
  | Run s1 l1 (Ret a) =>
      match f a s1 with
      | Run s2 l2 r => Run s2 (l1 ++ l2) r
      end
  | Run s1 l1 (Throw msg) => Run s1 l1 (Throw msg)
  | Run s1 l1 OutOfFuel => Run s1 l1 OutOfFuel
  | Run s1 l1 Untyped => Run s1 l1 Untyped
  end.

Definition throw {S A} (msg : string) : M S A := λ s, Run s [] (Throw msg).
Definition out_of_fuel {S A} : M S A := λ s, Run s [] OutOfFuel.
Definition untyped {S A} : M S A := λ s, Run s [] Untyped.
Definition console_error {S} (msg : string) : M S () := λ s, Run s [msg] (Ret ()).
Definition read {S} : M S S := λ s, Run s [] (Ret s).
Definition write {S} (s' : S) : M S () := λ _, Run s' [] (Ret ()).

#[global] Instance M_ret {S} : MRet (M S) := λ A, @ret S A.
#[global] Instance M_bind {S} : MBind (M S) := λ A B f m, @bind S A B m f.

(** [xs.map(f)] for an [f] with effects: left to right, the first throw ends
    the whole call. *)
Fixpoint mapM {S A B} (f : A → M S B) (xs : list A) : M S (list B) :=
  match xs with
  | [] => mret []
  | x :: xs' => y ← f x; ys ← mapM f xs'; mret (y :: ys)
  end.

(** ** Plain objects as dictionaries *)

Definition digit_value (a : Ascii.ascii) : option N :=
  let n := Ascii.N_of_ascii a in
  if ((48 <=? n) && (n <=? 57))%N then Some (n - 48)%N else None.

Fixpoint parse_digits (s : string) (acc : N) : option N :=
  match s with
  | EmptyString => Some acc
  | String a s' =>
      match digit_value a with
      | Some v => parse_digits s' (10 * acc + v)%N
      | None => None
      end
  end.

(** A property name is an array index when it is the canonical decimal
    spelling of an integer below [2^32 - 1] (ECMAScript, "array index"). *)
Definition array_index (name : string) : option N :=
  match parse_digits name 0 with
  | Some n =>
      if bool_decide (pretty n = name) && (n <? 4294967295)%N
      then Some n else None
  | None => None
  end.

Definition obj (V : Type) : Type := list (string * V).

(** [o[name]] on own properties; [None] is [undefined]. *)
Fixpoint prop_get {V} (name : string) (o : obj V) : option V :=
  match o with
  | [] => None
  | (k, v) :: o' => if decide (k = name) then Some v else prop_get name o'
  end.

(** [name in o]. *)
Definition prop_in {V} (name : string) (o : obj V) : bool :=
  match prop_get name o with Some _ => true | None => false end.

(** Assignment to an existing property keeps its place in the enumeration. *)
Fixpoint prop_replace {V} (name : string) (v : V) (o : obj V) : obj V :=
  match o with
  | [] => []
  | (k, w) :: o' =>
      if decide (k = name) then (k, v) :: o'
      else (k, w) :: prop_replace name v o'
  end.

(** A new array-index name goes before the first name that is not an array
    index or is a larger one. *)
Fixpoint prop_add_index {V} (n : N) (name : string) (v : V) (o : obj V) : obj V :=
  match o with
  | [] => [(name, v)]
  | (k, w) :: o' =>
      match array_index k with
      | Some m =>
          if (m <? n)%N then (k, w) :: prop_add_index n name v o'
          else (name, v) :: (k, w) :: o'
      | None => (name, v) :: (k, w) :: o'
      end
  end.

Definition prop_add {V} (name : string) (v : V) (o : obj V) : obj V :=
  match array_index name with
  | Some n => prop_add_index n name v o
  | None => o ++ [(name, v)]
  end.

(** [o[name] = v]. *)
Definition prop_set {V} (name : string) (v : V) (o : obj V) : obj V :=
  if prop_in name o then prop_replace name v o else prop_add name v o.

(** [Object.keys(o)]. *)
Definition keys {V} (o : obj V) : list string := o.*1.

(** ** What every object inherits *)

(** The value of a property of [Object.prototype]: the prototype object
    itself, under [__proto__], or a function with its [length]. *)
Inductive builtin : Type :=
| ObjectPrototype
| BuiltinFunction (length : nat).

Definition object_prototype : obj builtin :=
  [("constructor", BuiltinFunction 1);
   ("__defineGetter__", BuiltinFunction 2);
   ("__defineSetter__", BuiltinFunction 2);
   ("hasOwnProperty", BuiltinFunction 1);
   ("__lookupGetter__", BuiltinFunction 1);
   ("__lookupSetter__", BuiltinFunction 1);
   ("isPrototypeOf", BuiltinFunction 1);
   ("propertyIsEnumerable", BuiltinFunction 1);
   ("toString", BuiltinFunction 0);
   ("valueOf", BuiltinFunction 0);
   ("__proto__", ObjectPrototype);
   ("toLocaleString", BuiltinFunction 0)].

(** What a plain object inherits under [name] in a realm that nothing has
    written into. *)
Definition inherited (name : string) : option builtin :=
  prop_get name object_prototype.
Arguments inherited : simpl never.

(** The integer whose property key is [name]: its decimal spelling. *)
Definition number_key (name : string) : option Z :=
  match name with
  | String "-"%char digits =>
      match parse_digits digits 0 with
      | Some n =>
          if bool_decide (pretty n = digits) && negb (n =? 0)%N
          then Some (- Z.of_N n)%Z else None
      | None => None
      end
  | _ =>
      match parse_digits name 0 with
      | Some n => if bool_decide (pretty n = name) then Some (Z.of_N n) else None
      | None => None
      end
  end.

(** ** Results of queries *)

Definition Interval : Type := Z * Z.

Module Combined.
Record t : Type := mk { data : list Z; range : Interval }.
End Combined.

Module DimensionCombined.
Record t : Type := mk { dimension : string; data : list Z; range : Interval }.
End DimensionCombined.

(** ** combineRanges *)

Section combineRanges.
Context {S : Type}.

(** The loop over [bucket]: the two arrays have the same length here, so
    bucket [i] of the result is built from bucket [i] of both. *)
Fixpoint combine_buckets (low high : list Z) : M S (list Z) :=
  match low, high with
  | l :: low', h :: high' =>
      let d := (h - l)%Z in
      (if (d <? 0)%Z then console_error "Invalid data." else mret ());;
      data ← combine_buckets low' high';
      mret (d :: data)
  | _, _ => mret []
  end.

Definition combineRanges (low high : list Z) : M S (list Z) :=
  if negb (length low =? length high)%nat
  then throw "low and high have to have the same length"
  else combine_buckets low high.

End combineRanges.

(** ** The base class *)

Module Cache.

(** The fields of an instance and, as [realm], the built-in objects that its
    writes can reach. *)
Record t (V R : Type) : Type := mk {
  dimensions : list string;
  cache : obj V;
  realm : R
}.
Arguments mk {V R} dimensions cache realm.
Arguments dimensions {V R} _.
Arguments cache {V R} _.
Arguments realm {V R} _.

Section methods.
Context {V R : Type}.

(** [constructor(dimensions)] in the realm [r]; the field [cache] starts as
    [{}]. *)
Definition new (r : R) (dimensions : list string) : t V R := mk dimensions [] r.

(** [this.cache = c]; also stands for an assignment to a property of
    [this.cache], with [c] the object after the assignment. *)
Definition set_cache (c : obj V) : M (t V R) () :=
  this ← read; write (mk (dimensions this) c (realm this)).

(** An assignment to a property of a built-in object, with [r] the realm
    after the assignment. *)
Definition set_realm (r : R) : M (t V R) () :=
  this ← read; write (mk (dimensions this) (cache this) r).

Definition getDimensions : M (t V R) (list string) :=
  this ← read; mret (keys (cache this)).

Definition invalidate : M (t V R) () := set_cache [].

(** The abstract method. *)
Variable getCombined : Z → Z → string → M (t V R) (option Combined.t).

Definition getAllCombined (start end_ : Z) : M (t V R) (list DimensionCombined.t) :=
  dims ← getDimensions;
  mapped ← mapM (λ dimension,
    result ← getCombined start end_ dimension;
    match result with
    | Some r =>
        mret (Some (DimensionCombined.mk dimension (Combined.data r) (Combined.range r)))
    | None => mret None
    end) dims;
  mret (omap id mapped).

End methods.

(** Calls that change the receiver; [set] is the abstract method. *)
Inductive mutation : Type :=
| Set_ (index : Z) (dimension : string) (data : list Z)
| Invalidate.

Section histories.
Context {V R : Type}.
Variable set : Z → string → list Z → M (t V R) ().

Definition perform (m : mutation) : M (t V R) () :=
  match m with
  | Set_ index dimension data => set index dimension data
  | Invalidate => invalidate
  end.

(** The instance built by [new C(dimensions)] in the realm [r] after the
    calls [ms], oldest first.  A call that throws leaves the instance as it
    was when the exception was raised. *)
Definition after (r : R) (dimensions : list string) (ms : list mutation) : t V R :=
  fold_left (λ this m, final (perform m this)) ms (new r dimensions).

End histories.
End Cache.

(** ** SimpleCache *)

(** A snapshot array that [Object.prototype] holds under a numeric name: the
    numbers it was given with, and the snapshots assigned into it since. *)
Module Arr.
Record t : Type := mk { base : list Z; extra : gmap Z (list Z) }.
Definition pure (data : list Z) : t := mk data ∅.
End Arr.

(** The built-in objects that [SimpleCache.set] can write into: the numeric
    properties of the functions of [Object.prototype], by the name of the
    function, and those of [Object.prototype] itself. *)
Module Realm.
Record t : Type := mk {
  functions : gmap string (gmap Z (list Z));
  prototype : gmap Z Arr.t
}.
Definition clean : t := mk ∅ ∅.
End Realm.

(** What [entry[index]] can be when it is truthy. *)
Inductive value : Type :=
| VArray (a : Arr.t)
| VNumber (n : Z).

(** The [number[]] that a value is, if it is one. *)
Definition snapshot_of (v : value) : option (list Z) :=
  match v with
  | VArray a => if decide (Arr.extra a = ∅) then Some (Arr.base a) else None
  | VNumber _ => None
  end.

Module SimpleCache.

Abbreviation t := (Cache.t (gmap Z (list Z)) Realm.t).

(** What [this.cache[dimension]] is. *)
Inductive target : Type :=
| Undefined
| Dict (entry : gmap Z (list Z))
| FunctionObject (name : string)
| ThePrototype
| PrototypeArray (k : Z) (a : Arr.t).

(** [this.cache[dimension]]: an own property, or else what
    [Object.prototype] has under the name. *)
Definition resolve (dimension : string) (this : t) : target :=
  match prop_get dimension (Cache.cache this) with
  | Some entry => Dict entry
  | None =>
      match inherited dimension with
      | Some ObjectPrototype => ThePrototype
      | Some (BuiltinFunction _) => FunctionObject dimension
      | None =>
          match number_key dimension with
          | Some k =>
              match Realm.prototype (Cache.realm this) !! k with
              | Some a => PrototypeArray k a
              | None => Undefined
              end
          | None => Undefined
          end
      end
  end.

(** [Object.prototype[index]], where the lookup of a numeric property ends. *)
Definition prototype_property (index : Z) (this : t) : option value :=
  VArray <$> Realm.prototype (Cache.realm this) !! index.

(** [entry[index] || null] for [entry] the object [o]: the own property of
    [o] or the inherited one, and null for a falsy value. *)
Definition property (index : Z) (o : target) (this : t) : option value :=
  match o with
  | Undefined => None
  | Dict entry =>
      match entry !! index with
      | Some data => Some (VArray (Arr.pure data))
      | None => prototype_property index this
      end
  | FunctionObject name =>
      match Realm.functions (Cache.realm this) !! name ≫= (.!! index) with
      | Some data => Some (VArray (Arr.pure data))
      | None => prototype_property index this
      end
  | ThePrototype => prototype_property index this
  | PrototypeArray _ a =>
      match Arr.extra a !! index with
      | Some data => Some (VArray (Arr.pure data))
      | None =>
          if bool_decide (0 ≤ index)%Z then
            match Arr.base a !! Z.to_nat index with
            | Some n => if bool_decide (n = 0%Z) then None else Some (VNumber n)
            | None => prototype_property index this
            end
          else prototype_property index this
      end
  end.

(** [dimension in this.cache] is false exactly when [this.cache[dimension]]
    is undefined.  The assignment [this.cache[dimension][index] = data]
    makes an own property of the object that [this.cache[dimension]] is. *)
Definition set (index : Z) (dimension : string) (data : list Z) : M t () :=
  this ← read;
  (if resolve dimension this is Undefined
   then Cache.set_cache (prop_set dimension ∅ (Cache.cache this))
   else mret ());;
  this ← read;
  let r := Cache.realm this in
  match resolve dimension this with
  | Dict entry =>
      Cache.set_cache (prop_set dimension (<[index := data]> entry) (Cache.cache this))
  | FunctionObject name =>
      Cache.set_realm
        (Realm.mk
           (<[name := <[index := data]> (default ∅ (Realm.functions r !! name))]>
              (Realm.functions r))
           (Realm.prototype r))
  | ThePrototype =>
      Cache.set_realm
        (Realm.mk (Realm.functions r) (<[index := Arr.pure data]> (Realm.prototype r)))
  | PrototypeArray k a =>
      Cache.set_realm
        (Realm.mk (Realm.functions r)
           (<[k := Arr.mk (Arr.base a) (<[index := data]> (Arr.extra a))]>
              (Realm.prototype r)))
  | Undefined => throw "TypeError"
  end.

(** [if (!entry) return null; return entry[index] || null]: every object is
    truthy. *)
Definition get (index : Z) (dimension : string) : M t (option value) :=
  this ← read;
  mret (property index (resolve dimension this) this).

(** [combineRanges] on what [get] hands out.  A number has no [length]: two
    numbers pass the test of the lengths and the loop does not run; a number
    and an array fail the test.  An array into which snapshots were assigned
    has elements that are no numbers: the subtraction is not followed. *)
Definition combine_values (low high : value) : M t (list Z) :=
  match low, high with
  | VNumber _, VNumber _ => mret []
  | VNumber _, VArray _ | VArray _, VNumber _ =>
      throw "low and high have to have the same length"
  | VArray _, VArray _ =>
      match snapshot_of low, snapshot_of high with
      | Some low, Some high => combineRanges low high
      | _, _ => untyped
      end
  end.

Definition getCombined (start end_ : Z) (dimension : string) : M t (option Combined.t) :=
  low ← get start dimension;
  match low with
  | Some low =>
      high ← get end_ dimension;
      match high with
      | Some high =>
          data ← combine_values low high;
          mret (Some (Combined.mk data (start, end_)))
      | None => mret None
      end
  | None => mret None
  end.

(** The [for] loop of [hasFullData] over the dimensions still to visit. *)
Fixpoint hasFullData_from (index : Z) (dimensions : list string) : M t bool :=
  match dimensions with
  | [] => mret true
  | dimension :: rest =>
      hit ← get index dimension;
      match hit with
      | None => mret false
      | Some _ => hasFullData_from index rest
      end
  end.

Definition hasFullData (index : Z) : M t bool :=
  this ← read; hasFullData_from index (Cache.dimensions this).

Definition getAllCombined : Z → Z → M t (list DimensionCombined.t) :=
  Cache.getAllCombined getCombined.

Definition after : list string → list Cache.mutation → t :=
  Cache.after set Realm.clean.

(** A snapshot is stored at [index] for [dimension]. *)
Definition stored (this : t) (dimension : string) (index : Z) (data : list Z) : Prop :=
  ∃ entry, prop_get dimension (Cache.cache this) = Some entry ∧ entry !! index = Some data.

End SimpleCache.

(** ** SnappingCache *)

Module Entry.
Record t : Type := mk { index : Z; data : list Z }.
End Entry.

(** [ascending] of d3-array, on integers. *)
Definition ascending (a b : Z) : Z :=
  if (a <? b)%Z then (-1)%Z else if (b <? a)%Z then 1%Z else 0%Z.

Module DebugData.
Record t : Type := mk { dimension : string; caches : list Z }.
End DebugData.

Module SnappingCache.

Abbreviation t := (Cache.t (list Entry.t) ()).

(** [Array.prototype.sort] with the comparator of [set]; the sort is stable. *)
Fixpoint sort_insert (x : Entry.t) (xs : list Entry.t) : list Entry.t :=
  match xs with
  | [] => [x]
  | y :: xs' =>
      if (ascending (Entry.index x) (Entry.index y) <=? 0)%Z
      then x :: y :: xs'
      else y :: sort_insert x xs'
  end.

Fixpoint sort (xs : list Entry.t) : list Entry.t :=
  match xs with
  | [] => []
  | x :: xs' => sort_insert x (sort xs')
  end.

(** [!this.cache[dimension]] holds when the name is neither an own property
    nor inherited.  The entry is pushed and the array sorted in place; the
    array is reached through [this.cache] only, so the two steps are one
    assignment here.  What is inherited under a name has no [push]. *)
Definition set (index : Z) (dimension : string) (data : list Z) : M t () :=
  this ← read;
  (if prop_get dimension (Cache.cache this) is None
   then
     if inherited dimension is None
     then Cache.set_cache (prop_set dimension [] (Cache.cache this))
     else mret ()
   else mret ());;
  this ← read;
  match prop_get dimension (Cache.cache this) with
  | Some entries =>
      Cache.set_cache
        (prop_set dimension (sort (entries ++ [Entry.mk index data])) (Cache.cache this))
  | None => throw "TypeError"
  end.

(** [data[i]] followed by a property read: a [TypeError] outside the array. *)
Definition at_ (data : list Entry.t) (i : nat) : M t Entry.t :=
  match data !! i with
  | Some e => mret e
  | None => throw "TypeError"
  end.

(** The [while] loop of the binary search, from the state [(lo, hi)]. *)
Fixpoint search (fuel : nat) (data : list Entry.t) (index : Z) (lo hi : nat)
  : M t (nat * nat) :=
  if (1 <? hi - lo)%nat then
    match fuel with
    | O => out_of_fuel
    | Datatypes.S fuel' =>
        let mid := ((lo + hi) / 2)%nat in
        e ← at_ data mid;
        if (Entry.index e <? index)%Z
        then search fuel' data index mid hi
        else search fuel' data index lo mid
    end
  else mret (lo, hi).

(** An inherited function is truthy and has its [length]: with length 0
    the result is null; with a larger one the loop does not run and
    [data[lo]] is undefined, so that reading its [index] throws.  Under
    [__proto__] the length is undefined and [data[0]] is undefined too. *)
Definition get (index : Z) (dimension : string) : M t (option Entry.t) :=
  this ← read;
  match prop_get dimension (Cache.cache this) with
  | None =>
      match inherited dimension with
      | None => mret None
      | Some (BuiltinFunction 0) => mret None
      | Some _ => throw "TypeError"
      end
  | Some data =>
      if (length data =? 0)%nat then mret None
      else
        '(lo, hi) ← search (length data) data index 0 (length data - 1);
        at_lo ← at_ data lo;
        at_hi ← at_ data hi;
        let loIsCloser :=
          (index - Entry.index at_lo <=? Entry.index at_hi - index)%Z in
        let closest := if loIsCloser then at_lo else at_hi in
        mret (Some (Entry.mk (Entry.index closest) (Entry.data closest)))
  end.

Definition getCombined (start end_ : Z) (dimension : string) : M t (option Combined.t) :=
  low ← get start dimension;
  match low with
  | Some low =>
      high ← get end_ dimension;
      match high with
      | Some high =>
          if (Entry.index low <? Entry.index high)%Z then
            data ← combineRanges (Entry.data low) (Entry.data high);
            mret (Some (Combined.mk data (Entry.index low, Entry.index high)))
          else mret None
      | None => mret None
      end
  | None => mret None
  end.

(** The [for] loop of [hasFullData] over the dimensions still to visit. *)
Fixpoint hasFullData_from (index : Z) (dimensions : list string) : M t bool :=
  match dimensions with
  | [] => mret true
  | dimension :: rest =>
      item ← get index dimension;
      match item with
      | None => mret false
      | Some item =>
          if bool_decide (Entry.index item ≠ index) then mret false
          else hasFullData_from index rest
      end
  end.

Definition hasFullData (index : Z) : M t bool :=
  this ← read; hasFullData_from index (Cache.dimensions this).

Definition getAllCombined : Z → Z → M t (list DimensionCombined.t) :=
  Cache.getAllCombined getCombined.

Definition after : list string → list Cache.mutation → t := Cache.after set ().

(** The entries kept for [dimension]; none when the dimension was never set. *)
Definition entries (this : t) (dimension : string) : list Entry.t :=
  default [] (prop_get dimension (Cache.cache this)).

(** [this.cache[dimension].map(d => d.index)] for every name of
    [getDimensions]. *)
Definition getDebugData : M t (list DebugData.t) :=
  dims ← Cache.getDimensions;
  mapM (λ dimension,
    this ← read;
    match prop_get dimension (Cache.cache this) with
    | Some data => mret (DebugData.mk dimension (Entry.index <$> data))
    | None => throw "TypeError"
    end) dims.

End SnappingCache.

(** * Vocabulary of the statements *)

(** The console lines of one call: one for each negative bucket. *)
Definition diagnostics (data : list Z) : list string :=
  (λ _, "Invalid data.") <$> filter (λ d, (d < 0)%Z) data.

(** Bucket by bucket, [high[i] - low[i]]. *)
Definition difference (low high : list Z) : list Z :=
  zip_with (λ h l, (h - l)%Z) high low.

(** What an exact lookup finds. *)
Definition simple_lookup (this : SimpleCache.t) (dimension : string) (index : Z)
  : option (list Z) :=
  match prop_get dimension (Cache.cache this) with
  | Some entry => entry !! index
  | None => None
  end.

(** Every [set] of the calls [ms] carries a snapshot of [n] buckets. *)
Definition snapshots_of_length (n : nat) (ms : list Cache.mutation) : Prop :=
  Forall (λ m,
    match m with
    | Cache.Set_ _ _ data => length data = n
    | Cache.Invalidate => True
    end) ms.

(** Ascending order of a dimension's entries. *)
Definition by_index : relation Entry.t :=
  λ x y, (Entry.index x ≤ Entry.index y)%Z.

Definition ascending_order (xs : list Entry.t) : Prop := StronglySorted by_index xs.

(** The names on which [set] was called since the last [invalidate], each
    once, in the order of their first call. *)
Definition first_set_order (ms : list Cache.mutation) : list string :=
  fold_left (λ seen m,
    match m with
    | Cache.Set_ _ dimension _ =>
        if decide (dimension ∈ seen) then seen else seen ++ [dimension]
    | Cache.Invalidate => []
    end) ms [].




(** What [getAllCombined] keeps of the attempt on one dimension. *)
Definition found {V R}
    (getCombined : Z → Z → string → M (Cache.t V R) (option Combined.t))
    (start end_ : Z) (this : Cache.t V R) (dimension : string)
  : option DimensionCombined.t :=
  match result (getCombined start end_ dimension this) with
  | Ret (Some r) =>
      Some (DimensionCombined.mk dimension (Combined.data r) (Combined.range r))
  | _ => None
  end.

(** The coordinates given to [set] for [d] since the last [invalidate], in
    call order. *)
Definition coordinates_set (d : string) (ms : list Cache.mutation) : list Z :=
  fold_left (λ seen m,
    match m with
    | Cache.Set_ index dimension _ =>
        if decide (dimension = d) then seen ++ [index] else seen
    | Cache.Invalidate => []
    end) ms [].

(** No [set] of the calls [ms] names a dimension that objects inherit from
    [Object.prototype]. *)
Definition plain_sets (ms : list Cache.mutation) : Prop :=
  Forall (λ m,
    match m with
    | Cache.Set_ _ dimension _ => inherited dimension = None
    | Cache.Invalidate => True
    end) ms.

(** [this.cache[d]] of a [SnappingCache] is an array or undefined. *)
Definition snapping_accepts (d : string) (this : SnappingCache.t) : Prop :=
  is_Some (prop_get d (Cache.cache this)) ∨ inherited d = None.

(** The instance after [SimpleCache.set index dimension data]. *)
Definition simple_assigned (index : Z) (dimension : string) (data : list Z)
    (this : SimpleCache.t) : SimpleCache.t :=
  let r := Cache.realm this in
  match SimpleCache.resolve dimension this with
  | SimpleCache.Undefined =>
      Cache.mk (Cache.dimensions this)
        (prop_set dimension (<[index := data]> ∅) (Cache.cache this)) r
  | SimpleCache.Dict entry =>
      Cache.mk (Cache.dimensions this)
        (prop_set dimension (<[index := data]> entry) (Cache.cache this)) r
  | SimpleCache.FunctionObject name =>
      Cache.mk (Cache.dimensions this) (Cache.cache this)
        (Realm.mk
           (<[name := <[index := data]> (default ∅ (Realm.functions r !! name))]>
              (Realm.functions r))
           (Realm.prototype r))
  | SimpleCache.ThePrototype =>
      Cache.mk (Cache.dimensions this) (Cache.cache this)
        (Realm.mk (Realm.functions r) (<[index := Arr.pure data]> (Realm.prototype r)))
  | SimpleCache.PrototypeArray k a =>
      Cache.mk (Cache.dimensions this) (Cache.cache this)
        (Realm.mk (Realm.functions r)
           (<[k := Arr.mk (Arr.base a) (<[index := data]> (Arr.extra a))]>
              (Realm.prototype r)))
  end.

(** * Properties *)

(** ** Computations *)

(** Unfolds the primitive computations in the goal. *)
Ltac run_unfold :=
  cbv [mbind mret M_bind M_ret bind ret read write throw out_of_fuel untyped
       console_error Cache.set_cache Cache.set_realm Cache.invalidate
       Cache.getDimensions].

Ltac run_simpl := run_unfold; cbn.

Lemma bind_run {S A B} (m : M S A) (f : A → M S B) (s : S) :
  (m ≫= f) s =
  match m s with
  | Run s1 l1 (Ret a) =>
      match f a s1 with
      | Run s2 l2 r => Run s2 (l1 ++ l2) r
      end
  | Run s1 l1 (Throw msg) => Run s1 l1 (Throw msg)
  | Run s1 l1 OutOfFuel => Run s1 l1 OutOfFuel
  | Run s1 l1 Untyped => Run s1 l1 Untyped
  end.
Proof. reflexivity. Qed.

Lemma bind_quiet_run {S A B} (m : M S A) (f : A → M S B) (s : S) a :
  m s = Run s [] (Ret a) → (m ≫= f) s = f a s.
Proof. intros Hm. rewrite bind_run, Hm. by destruct (f a s). Qed.

Lemma bind_throw_run {S A B} (m : M S A) (f : A → M S B) (s s' : S) l msg :
  m s = Run s' l (Throw msg) → (m ≫= f) s = Run s' l (Throw msg).
Proof. intros Hm. by rewrite bind_run, Hm. Qed.

(** [mapM] over calls that return and leave the receiver alone. *)
Lemma mapM_run {S A B} (f : A → M S B) (l : A → list string) (g : A → B)
    (xs : list A) (s : S) :
  (∀ x, x ∈ xs → f x s = Run s (l x) (Ret (g x))) →
  mapM f xs s = Run s (concat (l <$> xs)) (Ret (g <$> xs)).
Proof.
  induction xs as [|x xs IH]; intros Hf; [done|].
  cbn [mapM fmap list_fmap concat].
  rewrite bind_run, (Hf x) by left.
  rewrite bind_run, IH by (intros y Hy; apply Hf; by right).
  cbn. by rewrite app_nil_r.
Qed.


(** ** Histories *)

Lemma after_invariant {V R} (set : Z → string → list Z → M (Cache.t V R) ())
    (P : Cache.t V R → Prop) r dimensions ms :
  P (Cache.new r dimensions) →
  (∀ this m, P this → P (final (Cache.perform set m this))) →
  P (Cache.after set r dimensions ms).
Proof.
  intros Hnew Hstep. unfold Cache.after.
  generalize dependent (Cache.new (V:=V) r dimensions).
  induction ms as [|m ms IH]; intros this Hthis; cbn; [done|].
  apply IH, Hstep, Hthis.
Qed.

Lemma after_snoc {V R} (set : Z → string → list Z → M (Cache.t V R) ()) r dimensions ms m :
  Cache.after set r dimensions (ms ++ [m]) =
  final (Cache.perform set m (Cache.after set r dimensions ms)).
Proof. unfold Cache.after. by rewrite fold_left_app. Qed.

Lemma after_app {V R} (set : Z → string → list Z → M (Cache.t V R) ()) r dimensions ms ms' :
  Cache.after set r dimensions (ms ++ ms') =
  fold_left (λ this m, final (Cache.perform set m this)) ms'
    (Cache.after set r dimensions ms).
Proof. unfold Cache.after. by rewrite fold_left_app. Qed.

Lemma invalidate_run {V R} (this : Cache.t V R) :
  Cache.invalidate this
  = Run (Cache.mk (Cache.dimensions this) [] (Cache.realm this)) [] (Ret ()).
Proof. reflexivity. Qed.

(** ** Objects *)

Section obj_facts.
Context {V : Type}.
Implicit Types (o : obj V) (name k : string) (v w : V).

Lemma prop_in_true name o : prop_in name o = true ↔ is_Some (prop_get name o).
Proof.
  unfold prop_in. rewrite is_Some_alt. by destruct (prop_get name o).
Qed.

Lemma prop_in_false name o : prop_in name o = false ↔ prop_get name o = None.
Proof. unfold prop_in. by destruct (prop_get name o). Qed.

Lemma elem_of_keys name o : name ∈ keys o ↔ is_Some (prop_get name o).
Proof.
  unfold keys. induction o as [|[k v] o IH]; cbn.
  - split; [by intros ?%elem_of_nil | by intros [? ?]].
  - rewrite elem_of_cons. destruct (decide (k = name)) as [->|Hne].
    + split; [by eexists | by left].
    + rewrite <- IH. split; [intros [?|?]; [congruence|done] | by right].
Qed.


Lemma prop_get_replace_eq name v o :
  is_Some (prop_get name o) → prop_get name (prop_replace name v o) = Some v.
Proof.
  induction o as [|[k w] o IH]; cbn; [by intros [? ?]|].
  destruct (decide (k = name)) as [->|Hne]; cbn.
  - by rewrite decide_True.
  - rewrite decide_False by done. apply IH.
Qed.

Lemma prop_get_replace_ne name k v o :
  name ≠ k → prop_get k (prop_replace name v o) = prop_get k o.
Proof.
  intros Hne. induction o as [|[k' w] o IH]; cbn; [done|].
  destruct (decide (k' = name)) as [->|Hne']; cbn.
  - by rewrite !decide_False.
  - by rewrite IH.
Qed.

Lemma prop_replace_replace name v w o :
  prop_replace name w (prop_replace name v o) = prop_replace name w o.
Proof.
  induction o as [|[k u] o IH]; cbn; [done|].
  destruct (decide (k = name)) as [->|Hne]; cbn.
  - by rewrite decide_True.
  - by rewrite decide_False, IH.
Qed.


Lemma prop_get_app name o o' :
  prop_get name (o ++ o') =
  match prop_get name o with Some v => Some v | None => prop_get name o' end.
Proof.
  induction o as [|[k u] o IH]; cbn; [done|].
  by destruct (decide (k = name)).
Qed.

Lemma prop_get_add_index_eq n name v o :
  prop_get name o = None → prop_get name (prop_add_index n name v o) = Some v.
Proof.
  induction o as [|[k u] o IH]; cbn.
  - by rewrite decide_True.
  - destruct (decide (k = name)) as [->|Hne]; [done|]. intros Ho.
    destruct (array_index k) as [m|]; [destruct (m <? n)%N|]; cbn;
      rewrite ?decide_True, ?decide_False by done; auto.
Qed.

Lemma prop_get_add_index_ne n name k v o :
  name ≠ k → prop_get k (prop_add_index n name v o) = prop_get k o.
Proof.
  intros Hne. induction o as [|[k' u] o IH]; cbn.
  - by rewrite decide_False.
  - destruct (array_index k') as [m|]; [destruct (m <? n)%N|]; cbn;
      rewrite ?IH, ?(decide_False (P := name = k)) by done; done.
Qed.

Lemma prop_replace_add_index n name v w o :
  prop_get name o = None →
  prop_replace name w (prop_add_index n name v o) = prop_add_index n name w o.
Proof.
  induction o as [|[k u] o IH]; cbn.
  - by rewrite decide_True.
  - destruct (decide (k = name)) as [->|Hne]; [done|]. intros Ho.
    destruct (array_index k) as [m|]; [destruct (m <? n)%N|]; cbn;
      rewrite ?decide_True, ?decide_False by done; [by rewrite IH|done..].
Qed.

Lemma prop_replace_app_fresh name v w o :
  prop_get name o = None →
  prop_replace name w (o ++ [(name, v)]) = o ++ [(name, w)].
Proof.
  induction o as [|[k u] o IH]; cbn.
  - by rewrite decide_True.
  - destruct (decide (k = name)) as [->|Hne]; [done|]. intros Ho. by rewrite IH.
Qed.

Lemma prop_get_add_eq name v o :
  prop_get name o = None → prop_get name (prop_add name v o) = Some v.
Proof.
  intros Ho. unfold prop_add. destruct (array_index name).
  - by apply prop_get_add_index_eq.
  - rewrite prop_get_app, Ho. cbn. by rewrite decide_True.
Qed.

Lemma prop_get_add_ne name k v o :
  name ≠ k → prop_get k (prop_add name v o) = prop_get k o.
Proof.
  intros Hne. unfold prop_add. destruct (array_index name).
  - by apply prop_get_add_index_ne.
  - rewrite prop_get_app. cbn. rewrite decide_False by done.
    by destruct (prop_get k o).
Qed.

Lemma prop_get_set_eq name v o : prop_get name (prop_set name v o) = Some v.
Proof.
  unfold prop_set. destruct (prop_in name o) eqn:Hin.
  - apply prop_get_replace_eq. by apply prop_in_true.
  - apply prop_get_add_eq. by apply prop_in_false.
Qed.

Lemma prop_get_set_ne name k v o :
  name ≠ k → prop_get k (prop_set name v o) = prop_get k o.
Proof.
  intros Hne. unfold prop_set. destruct (prop_in name o).
  - by apply prop_get_replace_ne.
  - by apply prop_get_add_ne.
Qed.

Lemma prop_in_set name v o : prop_in name (prop_set name v o) = true.
Proof. apply prop_in_true. rewrite prop_get_set_eq. by eexists. Qed.

Lemma prop_set_set name v w o :
  prop_set name w (prop_set name v o) = prop_set name w o.
Proof.
  unfold prop_set at 1. rewrite prop_in_set.
  unfold prop_set. destruct (prop_in name o) eqn:Hin.
  - apply prop_replace_replace.
  - apply prop_in_false in Hin. unfold prop_add. destruct (array_index name).
    + by apply prop_replace_add_index.
    + by apply prop_replace_app_fresh.
Qed.

End obj_facts.

(** ** combineRanges *)

Lemma difference_length low high :
  length low = length high → length (difference low high) = length low.
Proof. intros H. unfold difference. rewrite length_zip_with. lia. Qed.

Lemma difference_lookup low high i l h :
  low !! i = Some l → high !! i = Some h →
  difference low high !! i = Some (h - l)%Z.
Proof.
  intros Hl Hh. unfold difference. rewrite lookup_zip_with, Hh. cbn. by rewrite Hl.
Qed.

Lemma difference_self s : difference s s = replicate (length s) 0%Z.
Proof.
  unfold difference. induction s as [|x s IH]; cbn; [done|].
  by rewrite Z.sub_diag, IH.
Qed.

Lemma diagnostics_elem data d :
  d ∈ data → (d < 0)%Z → "Invalid data." ∈ diagnostics data.
Proof.
  intros Hd Hneg. unfold diagnostics.
  apply (list_elem_of_fmap_2 (λ _ : Z, "Invalid data.") _ d).
  by apply list_elem_of_filter.
Qed.

Lemma diagnostics_nil data : Forall (λ d, (0 ≤ d)%Z) data → diagnostics data = [].
Proof.
  unfold diagnostics. induction 1 as [|d data Hd _ IH]; [done|].
  rewrite filter_cons_False by lia. done.
Qed.

Lemma diagnostics_replicate n : diagnostics (replicate n 0%Z) = [].
Proof. apply diagnostics_nil, Forall_replicate. lia. Qed.

Section combineRanges_facts.
Context {S : Type}.
Implicit Types (s : S) (low high : list Z).

Lemma combine_buckets_run low high s :
  combine_buckets low high s =
  Run s (diagnostics (difference low high)) (Ret (difference low high)).
Proof.
  revert high. induction low as [|l low IH]; intros [|h high]; try done.
  cbn [combine_buckets]. rewrite bind_run.
  unfold difference, diagnostics in *. cbn [zip_with].
  destruct (Z.ltb_spec (h - l) 0) as [Hneg|Hpos].
  - rewrite filter_cons_True by done. cbn.
    rewrite bind_run, IH. cbn. by rewrite app_nil_r.
  - rewrite filter_cons_False by lia. cbn.
    rewrite bind_run, IH. cbn. by rewrite app_nil_r.
Qed.

Lemma combineRanges_same_length low high s :
  length low = length high →
  combineRanges low high s =
  Run s (diagnostics (difference low high)) (Ret (difference low high)).
Proof.
  intros Hlen. unfold combineRanges.
  rewrite (proj2 (Nat.eqb_eq _ _) Hlen). cbn. apply combine_buckets_run.
Qed.

Lemma combineRanges_other_length low high s :
  length low ≠ length high →
  combineRanges low high s =
  Run s [] (Throw "low and high have to have the same length").
Proof.
  intros Hlen. unfold combineRanges.
  by rewrite (proj2 (Nat.eqb_neq _ _) Hlen).
Qed.

(** C4.  [combineRanges low high] throws exactly when the two lengths
    differ.  When they agree it returns the array whose bucket [i] is
    [high[i] - low[i]], of the common length; a negative bucket puts the
    line "Invalid data." on the console and the array is returned all the
    same.  The receiver of the calling method is not touched. *)
Theorem combineRanges_contract low high s :
  let r := combineRanges low high s in
  ((∃ msg, result r = Throw msg) ↔ length low ≠ length high) ∧
  (length low = length high →
     ∃ data, result r = Ret data ∧ length data = length low ∧
       (∀ i l h, low !! i = Some l → high !! i = Some h →
          data !! i = Some (h - l)%Z) ∧
       (∀ i d, data !! i = Some d → (d < 0)%Z →
          "Invalid data." ∈ console r) ∧
       (Forall (λ d, (0 ≤ d)%Z) data → console r = [])) ∧
  final r = s.
Proof.
  intros r. subst r.
  destruct (decide (length low = length high)) as [Heq|Hne].
  - rewrite (combineRanges_same_length _ _ _ Heq). cbn. split_and!.
    + split; [by intros [? ?]|done].
    + intros _. exists (difference low high). split_and!; [done|..].
      * by apply difference_length.
      * apply difference_lookup.
      * intros i d Hd Hneg. eapply diagnostics_elem; [|done].
        by eapply list_elem_of_lookup_2.
      * apply diagnostics_nil.
    + done.
  - rewrite (combineRanges_other_length _ _ _ Hne). cbn. split_and!.
    + split; [done|by eexists].
    + done.
    + done.
Qed.

End combineRanges_facts.

(** A call on which C4 is exercised: bucket 1 is negative. *)
Lemma combineRanges_contract_witness :
  ∃ data, result (combineRanges [1; 5]%Z [4; 2]%Z ()) = Ret data ∧
    data !! 1%nat = Some (-3)%Z ∧
    "Invalid data." ∈ console (combineRanges [1; 5]%Z [4; 2]%Z ()).
Proof.
  destruct (combineRanges_contract [1; 5]%Z [4; 2]%Z ()) as (_ & Hsame & _).
  destruct (Hsame eq_refl) as (data & Hret & _ & Hbucket & Hlog & _).
  exists data. split_and!; [done|..].
  - by apply (Hbucket 1%nat 5%Z 2%Z).
  - apply (Hlog 1%nat (-3)%Z); [|lia]. by apply (Hbucket 1%nat 5%Z 2%Z).
Defined.

(** ** SimpleCache: what a name resolves to *)

(** Reduces the projections of the records of the state. *)
Ltac proj_simpl :=
  cbn [Cache.cache Cache.realm Cache.dimensions Realm.prototype Realm.functions
       Arr.base Arr.extra].

Lemma simple_stored_lookup this dimension index data :
  SimpleCache.stored this dimension index data ↔
  simple_lookup this dimension index = Some data.
Proof.
  unfold SimpleCache.stored, simple_lookup. split.
  - intros (entry & -> & Hentry). done.
  - destruct (prop_get dimension (Cache.cache this)) as [entry|]; [|done].
    intros Hentry. by exists entry.
Qed.

Lemma simple_get_run index dimension (this : SimpleCache.t) :
  SimpleCache.get index dimension this =
  Run this []
    (Ret (SimpleCache.property index (SimpleCache.resolve dimension this) this)).
Proof. reflexivity. Qed.

Lemma simple_resolve_own d (this : SimpleCache.t) entry :
  prop_get d (Cache.cache this) = Some entry →
  SimpleCache.resolve d this = SimpleCache.Dict entry.
Proof. intros Hown. unfold SimpleCache.resolve. by rewrite Hown. Qed.

Lemma simple_resolve_inv d (this : SimpleCache.t) :
  match SimpleCache.resolve d this with
  | SimpleCache.Undefined =>
      prop_get d (Cache.cache this) = None ∧ inherited d = None
  | SimpleCache.Dict entry => prop_get d (Cache.cache this) = Some entry
  | SimpleCache.FunctionObject name =>
      prop_get d (Cache.cache this) = None ∧ name = d ∧
      ∃ l, inherited d = Some (BuiltinFunction l)
  | SimpleCache.ThePrototype =>
      prop_get d (Cache.cache this) = None ∧ inherited d = Some ObjectPrototype
  | SimpleCache.PrototypeArray k a =>
      prop_get d (Cache.cache this) = None ∧ inherited d = None ∧
      number_key d = Some k ∧
      Realm.prototype (Cache.realm this) !! k = Some a
  end.
Proof.
  unfold SimpleCache.resolve.
  destruct (prop_get d (Cache.cache this)) as [entry|]; [done|].
  destruct (inherited d) as [[|l]|]; [done|by eauto|].
  destruct (number_key d) as [k|]; [|done].
  by destruct (Realm.prototype (Cache.realm this) !! k) as [a|] eqn:Hk.
Qed.

(** What a name resolves to depends on the own property of that name and on
    the numeric property of [Object.prototype] that the name spells. *)
Lemma simple_resolve_congr d (this this' : SimpleCache.t) :
  prop_get d (Cache.cache this') = prop_get d (Cache.cache this) →
  (∀ k, number_key d = Some k →
     Realm.prototype (Cache.realm this') !! k
     = Realm.prototype (Cache.realm this) !! k) →
  SimpleCache.resolve d this' = SimpleCache.resolve d this.
Proof.
  intros Hown Hproto. unfold SimpleCache.resolve. rewrite Hown.
  destruct (prop_get d (Cache.cache this)); [done|].
  destruct (inherited d) as [[|l]|]; [done..|].
  destruct (number_key d) as [k|]; [|done]. by rewrite Hproto.
Qed.

Lemma simple_set_run index dimension data (this : SimpleCache.t) :
  SimpleCache.set index dimension data this =
  Run (simple_assigned index dimension data this) [] (Ret ()).
Proof.
  unfold SimpleCache.set, simple_assigned. run_unfold.
  destruct (SimpleCache.resolve dimension this) as [|entry|name| |k a] eqn:Hres;
    cbn [Cache.cache Cache.dimensions Cache.realm]; rewrite ?Hres; try done.
  rewrite (simple_resolve_own dimension _ ∅) by (cbn; apply prop_get_set_eq).
  cbn. by rewrite prop_set_set.
Qed.

(** The object that the name resolves to after the assignment is the one it
    resolved to before, with the new property. *)
Lemma simple_resolve_assigned i d s (this : SimpleCache.t) :
  SimpleCache.resolve d (simple_assigned i d s this) =
  match SimpleCache.resolve d this with
  | SimpleCache.Undefined => SimpleCache.Dict (<[i := s]> ∅)
  | SimpleCache.Dict entry => SimpleCache.Dict (<[i := s]> entry)
  | SimpleCache.FunctionObject name => SimpleCache.FunctionObject name
  | SimpleCache.ThePrototype => SimpleCache.ThePrototype
  | SimpleCache.PrototypeArray k a =>
      SimpleCache.PrototypeArray k (Arr.mk (Arr.base a) (<[i := s]> (Arr.extra a)))
  end.
Proof.
  unfold simple_assigned. pose proof (simple_resolve_inv d this) as Hinv.
  destruct (SimpleCache.resolve d this) as [|entry|name| |k a] eqn:Hres.
  - apply simple_resolve_own. cbn. apply prop_get_set_eq.
  - apply simple_resolve_own. cbn. apply prop_get_set_eq.
  - destruct Hinv as (Hown & -> & l & Hinh).
    unfold SimpleCache.resolve. proj_simpl. by rewrite Hown, Hinh.
  - destruct Hinv as (Hown & Hinh).
    unfold SimpleCache.resolve. proj_simpl. by rewrite Hown, Hinh.
  - destruct Hinv as (Hown & Hinh & Hkey & Hk).
    unfold SimpleCache.resolve. proj_simpl. rewrite Hown, Hinh, Hkey.
    by rewrite lookup_insert_eq.
Qed.

(** [get] reads back what [set] has just assigned, whatever object the name
    resolves to. *)
Lemma simple_read_back c d s (this : SimpleCache.t) :
  let this' := simple_assigned c d s this in
  SimpleCache.property c (SimpleCache.resolve d this') this'
  = Some (VArray (Arr.pure s)).
Proof.
  cbn zeta. rewrite simple_resolve_assigned.
  unfold simple_assigned. pose proof (simple_resolve_inv d this) as Hinv.
  destruct (SimpleCache.resolve d this) as [|entry|name| |k a] eqn:Hres; cbn.
  - by rewrite lookup_insert_eq.
  - by rewrite lookup_insert_eq.
  - rewrite lookup_insert_eq. cbn. by rewrite lookup_insert_eq.
  - unfold SimpleCache.prototype_property. cbn. by rewrite lookup_insert_eq.
  - by rewrite lookup_insert_eq.
Qed.

(** A second assignment at the same place leaves what the first one alone
    would have left. *)
Lemma simple_assigned_assigned i d s1 s2 (this : SimpleCache.t) :
  simple_assigned i d s2 (simple_assigned i d s1 this) = simple_assigned i d s2 this.
Proof.
  unfold simple_assigned at 1. rewrite simple_resolve_assigned.
  unfold simple_assigned.
  destruct (SimpleCache.resolve d this) as [|entry|name| |k a] eqn:Hres; cbn.
  - by rewrite prop_set_set, insert_insert_eq.
  - by rewrite prop_set_set, insert_insert_eq.
  - rewrite lookup_insert_eq. cbn. by rewrite !insert_insert_eq.
  - by rewrite insert_insert_eq.
  - by rewrite !insert_insert_eq.
Qed.

Lemma snapshot_of_pure data : snapshot_of (VArray (Arr.pure data)) = Some data.
Proof. done. Qed.

Lemma simple_combine_values_final low high (this : SimpleCache.t) :
  final (SimpleCache.combine_values low high this) = this.
Proof.
  unfold SimpleCache.combine_values.
  destruct low as [l|], high as [h|]; try done.
  destruct (snapshot_of (VArray l)) as [low|]; [|done].
  destruct (snapshot_of (VArray h)) as [high|]; [|done].
  destruct (decide (length low = length high)) as [Heq|Hne].
  - by rewrite (combineRanges_same_length _ _ _ Heq).
  - by rewrite (combineRanges_other_length _ _ _ Hne).
Qed.

Lemma simple_getCombined_values start end_ d (this : SimpleCache.t) :
  SimpleCache.getCombined start end_ d this =
  match SimpleCache.property start (SimpleCache.resolve d this) this,
        SimpleCache.property end_ (SimpleCache.resolve d this) this with
  | Some low, Some high =>
      (data ← SimpleCache.combine_values low high;
       mret (Some (Combined.mk data (start, end_)))) this
  | _, _ => Run this [] (Ret None)
  end.
Proof.
  unfold SimpleCache.getCombined.
  rewrite (bind_quiet_run _ _ _ _ (simple_get_run _ _ _)).
  destruct (SimpleCache.property start _ this) as [low|]; [|done].
  rewrite (bind_quiet_run _ _ _ _ (simple_get_run _ _ _)).
  by destruct (SimpleCache.property end_ _ this) as [high|].
Qed.

Lemma simple_getCombined_final start end_ d (this : SimpleCache.t) :
  final (SimpleCache.getCombined start end_ d this) = this.
Proof.
  rewrite simple_getCombined_values.
  destruct (SimpleCache.property start _ this) as [low|]; [|done].
  destruct (SimpleCache.property end_ _ this) as [high|]; [|done].
  rewrite bind_run.
  pose proof (simple_combine_values_final low high this) as Hfinal.
  destruct (SimpleCache.combine_values low high this) as [s l [data|msg| |]];
    cbn in *; done.
Qed.

(** Between two snapshots that nothing was assigned into. *)
Lemma simple_getCombined_snapshots start end_ d (this : SimpleCache.t) low high :
  SimpleCache.property start (SimpleCache.resolve d this) this
  = Some (VArray (Arr.pure low)) →
  SimpleCache.property end_ (SimpleCache.resolve d this) this
  = Some (VArray (Arr.pure high)) →
  SimpleCache.getCombined start end_ d this =
  if decide (length low = length high)
  then Run this (diagnostics (difference low high))
         (Ret (Some (Combined.mk (difference low high) (start, end_))))
  else Run this [] (Throw "low and high have to have the same length").
Proof.
  intros Hlow Hhigh. rewrite simple_getCombined_values, Hlow, Hhigh.
  rewrite bind_run. unfold SimpleCache.combine_values.
  rewrite !snapshot_of_pure.
  destruct (decide (length low = length high)) as [Heq|Hne].
  - rewrite (combineRanges_same_length _ _ _ Heq). cbn. by rewrite app_nil_r.
  - by rewrite (combineRanges_other_length _ _ _ Hne).
Qed.

(** An own snapshot is found before anything inherited. *)
Lemma simple_property_stored i d (this : SimpleCache.t) data :
  simple_lookup this d i = Some data →
  SimpleCache.property i (SimpleCache.resolve d this) this
  = Some (VArray (Arr.pure data)).
Proof.
  unfold simple_lookup.
  destruct (prop_get d (Cache.cache this)) as [entry|] eqn:Hown; [|done].
  intros Hentry. rewrite (simple_resolve_own _ _ _ Hown). cbn. by rewrite Hentry.
Qed.

Lemma simple_getCombined_stored start end_ d (this : SimpleCache.t) low high :
  simple_lookup this d start = Some low →
  simple_lookup this d end_ = Some high →
  SimpleCache.getCombined start end_ d this =
  if decide (length low = length high)
  then Run this (diagnostics (difference low high))
         (Ret (Some (Combined.mk (difference low high) (start, end_))))
  else Run this [] (Throw "low and high have to have the same length").
Proof.
  intros Hlow%simple_property_stored Hhigh%simple_property_stored.
  by apply simple_getCombined_snapshots.
Qed.

(** ** SimpleCache in a realm that nothing was written into *)

Lemma simple_clean_property i d (this : SimpleCache.t) :
  Cache.realm this = Realm.clean →
  SimpleCache.property i (SimpleCache.resolve d this) this
  = (λ data, VArray (Arr.pure data)) <$> simple_lookup this d i.
Proof.
  intros Hclean. unfold SimpleCache.resolve, simple_lookup.
  destruct (prop_get d (Cache.cache this)) as [entry|].
  - unfold SimpleCache.property, SimpleCache.prototype_property.
    rewrite Hclean. unfold Realm.clean. proj_simpl. rewrite lookup_empty.
    destruct (entry !! i); reflexivity.
  - destruct (inherited d) as [[|l]|].
    + unfold SimpleCache.property, SimpleCache.prototype_property.
      rewrite Hclean. unfold Realm.clean. proj_simpl. by rewrite lookup_empty.
    + unfold SimpleCache.property, SimpleCache.prototype_property.
      rewrite Hclean. unfold Realm.clean. proj_simpl. by rewrite !lookup_empty.
    + destruct (number_key d) as [k|]; [|done].
      rewrite Hclean. unfold Realm.clean. proj_simpl. by rewrite lookup_empty.
Qed.

Lemma simple_clean_resolve d (this : SimpleCache.t) :
  Cache.realm this = Realm.clean → inherited d = None →
  SimpleCache.resolve d this =
  match prop_get d (Cache.cache this) with
  | Some entry => SimpleCache.Dict entry
  | None => SimpleCache.Undefined
  end.
Proof.
  intros Hclean Hplain. unfold SimpleCache.resolve. rewrite Hplain, Hclean.
  destruct (prop_get d (Cache.cache this)); [done|].
  destruct (number_key d); [|done].
  unfold Realm.clean. proj_simpl. by rewrite lookup_empty.
Qed.

Lemma simple_clean_assigned i d data (this : SimpleCache.t) :
  Cache.realm this = Realm.clean → inherited d = None →
  simple_assigned i d data this =
  Cache.mk (Cache.dimensions this)
    (prop_set d (<[i := data]> (default ∅ (prop_get d (Cache.cache this))))
       (Cache.cache this))
    Realm.clean.
Proof.
  intros Hclean Hplain. unfold simple_assigned.
  rewrite (simple_clean_resolve _ _ Hclean Hplain), Hclean.
  by destruct (prop_get d (Cache.cache this)).
Qed.

Lemma simple_after_clean dimensions ms :
  plain_sets ms → Cache.realm (SimpleCache.after dimensions ms) = Realm.clean.
Proof.
  unfold SimpleCache.after, plain_sets.
  induction ms as [|m ms IH] using rev_ind; intros Hms; [done|].
  apply Forall_app in Hms as [Hms [Hm _]%Forall_cons].
  rewrite after_snoc. destruct m as [index dimension data|]; cbn [Cache.perform].
  - rewrite simple_set_run, simple_clean_assigned by auto. done.
  - rewrite invalidate_run. cbn. auto.
Qed.

(** What an assignment changes in the own store. *)
Lemma simple_lookup_assigned i d data (this : SimpleCache.t) i' d' :
  simple_lookup (simple_assigned i d data this) d' i' =
  match SimpleCache.resolve d this with
  | SimpleCache.Undefined | SimpleCache.Dict _ =>
      if decide (d = d' ∧ i = i') then Some data else simple_lookup this d' i'
  | _ => simple_lookup this d' i'
  end.
Proof.
  unfold simple_assigned. pose proof (simple_resolve_inv d this) as Hinv.
  destruct (SimpleCache.resolve d this) as [|entry|name| |k a]; try done;
    unfold simple_lookup; cbn.
  - destruct Hinv as [Hown _]. destruct (decide (d = d')) as [<-|Hd].
    + rewrite prop_get_set_eq, Hown. destruct (decide (i = i')) as [<-|Hi].
      * rewrite decide_True by done. apply lookup_insert_eq.
      * rewrite decide_False by (intros [_ ?]; done).
        by rewrite lookup_insert_ne.
    + rewrite decide_False by (intros [? _]; done). by rewrite prop_get_set_ne.
  - destruct (decide (d = d')) as [<-|Hd].
    + rewrite prop_get_set_eq, Hinv. destruct (decide (i = i')) as [<-|Hi].
      * rewrite decide_True by done. apply lookup_insert_eq.
      * rewrite decide_False by (intros [_ ?]; done).
        by rewrite lookup_insert_ne.
    + rewrite decide_False by (intros [? _]; done). by rewrite prop_get_set_ne.
Qed.

Lemma simple_clean_lookup_assigned i d data (this : SimpleCache.t) i' d' :
  Cache.realm this = Realm.clean → inherited d = None →
  simple_lookup (simple_assigned i d data this) d' i' =
  if decide (d = d' ∧ i = i') then Some data else simple_lookup this d' i'.
Proof.
  intros Hclean Hplain. rewrite simple_lookup_assigned.
  rewrite (simple_clean_resolve _ _ Hclean Hplain).
  by destruct (prop_get d (Cache.cache this)).
Qed.

Lemma simple_clean_getCombined start end_ d (this : SimpleCache.t) :
  Cache.realm this = Realm.clean →
  SimpleCache.getCombined start end_ d this =
  match simple_lookup this d start, simple_lookup this d end_ with
  | Some low, Some high =>
      if decide (length low = length high)
      then Run this (diagnostics (difference low high))
             (Ret (Some (Combined.mk (difference low high) (start, end_))))
      else Run this [] (Throw "low and high have to have the same length")
  | _, _ => Run this [] (Ret None)
  end.
Proof.
  intros Hclean.
  pose proof (simple_clean_property start d this Hclean) as Hlow.
  pose proof (simple_clean_property end_ d this Hclean) as Hhigh.
  destruct (simple_lookup this d start) as [low|]; cbn in Hlow.
  - destruct (simple_lookup this d end_) as [high|]; cbn in Hhigh.
    + by apply simple_getCombined_snapshots.
    + by rewrite simple_getCombined_values, Hlow, Hhigh.
  - by rewrite simple_getCombined_values, Hlow.
Qed.

(** ** SimpleCache: exact lookups *)

(** C3.  In a realm that nothing was written into, as after any calls of
    [set] on names that objects do not inherit, [SimpleCache.getCombined
    start end dimension] never changes the cache.  It returns a result other
    than null exactly when snapshots are stored at [start] and at [end] and
    have the same length; the result then has the range [(start, end)] and
    the bucketwise difference as data.  It throws exactly when both are
    stored with different lengths, and returns null exactly when one of the
    boundaries has no stored snapshot. *)
Theorem simple_getCombined_exact :
  (∀ dimensions ms,
     plain_sets ms → Cache.realm (SimpleCache.after dimensions ms) = Realm.clean) ∧
  (∀ (this : SimpleCache.t) start end_ dimension,
     Cache.realm this = Realm.clean →
     let r := SimpleCache.getCombined start end_ dimension this in
     final r = this ∧
     (∀ c, result r = Ret (Some c) ↔
        ∃ low high,
          SimpleCache.stored this dimension start low ∧
          SimpleCache.stored this dimension end_ high ∧
          length low = length high ∧
          c = Combined.mk (difference low high) (start, end_)) ∧
     ((∃ msg, result r = Throw msg) ↔
        ∃ low high,
          SimpleCache.stored this dimension start low ∧
          SimpleCache.stored this dimension end_ high ∧
          length low ≠ length high) ∧
     (result r = Ret None ↔
        (¬ ∃ low, SimpleCache.stored this dimension start low) ∨
        (¬ ∃ high, SimpleCache.stored this dimension end_ high)) ∧
     result r ≠ OutOfFuel ∧ result r ≠ Untyped).
Proof.
  split; [apply simple_after_clean|].
  intros this start end_ dimension Hclean r. subst r.
  rewrite (simple_clean_getCombined _ _ _ _ Hclean).
  setoid_rewrite simple_stored_lookup.
  destruct (simple_lookup this dimension start) as [low|];
    [destruct (simple_lookup this dimension end_) as [high|]|].
  - destruct (decide (length low = length high)) as [Heq|Hne]; cbn; split_and!;
      try done.
    + intros c. split.
      * intros [= <-]. by exists low, high.
      * by intros (? & ? & [= <-] & [= <-] & _ & ->).
    + split; [by intros [? ?]|]. by intros (? & ? & [= <-] & [= <-] & ?).
    + split; [done|]. intros [H|H]; exfalso; apply H; by eexists.
    + intros c. split; [done|]. by intros (? & ? & [= <-] & [= <-] & ? & _).
    + split; [|by eexists]. intros _. by exists low, high.
    + split; [done|]. intros [H|H]; exfalso; apply H; by eexists.
  - cbn. split_and!; try done.
    + intros c. split; [done|]. by intros (? & ? & _ & ? & _).
    + split; [by intros [? ?]|]. by intros (? & ? & _ & ? & _).
    + split; [|done]. intros _. right. by intros [? ?].
  - cbn. split_and!; try done.
    + intros c. split; [done|]. by intros (? & ? & ? & _).
    + split; [by intros [? ?]|]. by intros (? & ? & ? & _).
    + split; [|done]. intros _. left. by intros [? ?].
Qed.

(** The scenario of the specification: the first test is an exact hit, the
    second a miss on the upper boundary. *)
Lemma simple_getCombined_exact_witness :
  let this := SimpleCache.after ["a"; "b"]
    [Cache.Set_ 0 "a" [10; 20]%Z; Cache.Set_ 100 "a" [50; 80]%Z;
     Cache.Set_ 0 "b" [5; 5]%Z; Cache.Set_ 100 "b" [9; 9]%Z] in
  result (SimpleCache.getCombined 0 100 "a" this)
    = Ret (Some (Combined.mk [40; 60]%Z (0, 100)%Z)) ∧
  result (SimpleCache.getCombined 0 50 "a" this) = Ret None.
Proof.
  intros this.
  destruct simple_getCombined_exact as [Hclean Hexact].
  assert (Cache.realm this = Realm.clean) as Hthis
    by (apply Hclean; repeat constructor).
  split.
  - destruct (Hexact this 0%Z 100%Z "a" Hthis) as (_ & Hhit & _).
    apply Hhit. exists [10; 20]%Z, [50; 80]%Z.
    split_and!; try reflexivity; apply simple_stored_lookup; vm_compute; reflexivity.
  - destruct (Hexact this 0%Z 50%Z "a" Hthis) as (_ & _ & _ & Hmiss & _).
    apply Hmiss. right. intros [high Hhigh%simple_stored_lookup].
    vm_compute in Hhigh. discriminate.
Defined.

(** C3 as it is worded fails in two ways.  Two snapshots of different
    lengths are stored at both boundaries and the call throws.  And a
    snapshot that was set under [__proto__] is a property of
    [Object.prototype]: every lookup at its index finds it, for dimension
    ["a"] too, where nothing was stored at 0. *)
Lemma simple_getCombined_counterexample :
  (let this := SimpleCache.after ["a"]
     [Cache.Set_ 0 "a" [1]%Z; Cache.Set_ 1 "a" [1; 2]%Z] in
   SimpleCache.stored this "a" 0 [1]%Z ∧
   SimpleCache.stored this "a" 1 [1; 2]%Z ∧
   result (SimpleCache.getCombined 0 1 "a" this)
   = Throw "low and high have to have the same length") ∧
  (let this := SimpleCache.after ["a"]
     [Cache.Set_ 0 "__proto__" [4]%Z; Cache.Set_ 1 "a" [9]%Z] in
   (¬ ∃ low, SimpleCache.stored this "a" 0 low) ∧
   result (SimpleCache.getCombined 0 1 "a" this)
   = Ret (Some (Combined.mk [5]%Z (0, 1)%Z))).
Proof.
  split; cbn zeta; split_and!.
  - apply simple_stored_lookup. vm_compute. reflexivity.
  - apply simple_stored_lookup. vm_compute. reflexivity.
  - vm_compute. reflexivity.
  - intros [low Hlow%simple_stored_lookup]. vm_compute in Hlow. discriminate.
  - vm_compute. reflexivity.
Qed.

(** C9.  [SimpleCache.set] overwrites, whatever the cache held before and
    whatever object the dimension name resolves to: both calls return,
    after [set index dimension s1] the exact lookup at that place finds
    [s1], after a following [set index dimension s2] it finds [s2], and
    the cache is then the one that the second call alone would have left.
    A second [set] with the arguments of the first changes nothing. *)
Theorem simple_set_last_write_wins (this : SimpleCache.t) index dimension s1 s2 :
  let first := SimpleCache.set index dimension s1 this in
  let second := SimpleCache.set index dimension s2 (final first) in
  result first = Ret () ∧ result second = Ret () ∧
  SimpleCache.get index dimension (final first)
  = Run (final first) [] (Ret (Some (VArray (Arr.pure s1)))) ∧
  SimpleCache.get index dimension (final second)
  = Run (final second) [] (Ret (Some (VArray (Arr.pure s2)))) ∧
  final second = final (SimpleCache.set index dimension s2 this) ∧
  SimpleCache.set index dimension s1 (final first) = Run (final first) [] (Ret ()).
Proof.
  cbn zeta. rewrite !simple_set_run. cbn [final result].
  rewrite !simple_get_run, !simple_read_back, !simple_assigned_assigned.
  done.
Qed.

(** C10.  After [set c d s] the zero-width query [getCombined c c d] of the
    [SimpleCache] is not a miss: it returns the range [(c, c)] and as many
    zeros as [s] has buckets, and logs nothing. *)
Theorem simple_zero_width (this : SimpleCache.t) c d s :
  let this' := final (SimpleCache.set c d s this) in
  SimpleCache.getCombined c c d this' =
  Run this' [] (Ret (Some (Combined.mk (replicate (length s) 0%Z) (c, c)))).
Proof.
  cbn zeta. rewrite simple_set_run. cbn [final].
  rewrite (simple_getCombined_snapshots c c d _ s s)
    by apply simple_read_back.
  rewrite decide_True by done.
  by rewrite difference_self, diagnostics_replicate.
Qed.

(** ** SnappingCache: the sort *)

Lemma ascending_le a b : (ascending a b <=? 0)%Z = true ↔ (a ≤ b)%Z.
Proof.
  unfold ascending.
  destruct (Z.ltb_spec a b); [|destruct (Z.ltb_spec b a)]; cbn; split; (lia || done).
Qed.

Lemma sort_insert_perm x xs : SnappingCache.sort_insert x xs ≡ₚ x :: xs.
Proof.
  induction xs as [|y xs IH]; cbn; [done|].
  destruct (ascending _ _ <=? 0)%Z; [done|].
  rewrite IH. apply Permutation_swap.
Qed.

Lemma sort_perm xs : SnappingCache.sort xs ≡ₚ xs.
Proof.
  induction xs as [|x xs IH]; cbn; [done|].
  by rewrite sort_insert_perm, IH.
Qed.

Lemma sort_insert_ascending x xs :
  ascending_order xs → ascending_order (SnappingCache.sort_insert x xs).
Proof.
  unfold ascending_order. induction 1 as [|y xs Hxs IH Hy]; cbn.
  - repeat constructor.
  - destruct (ascending _ _ <=? 0)%Z eqn:Hcmp.
    + apply ascending_le in Hcmp. constructor; [by constructor|].
      constructor; [done|].
      eapply Forall_impl; [exact Hy|]. unfold by_index. intros z Hz. lia.
    + constructor; [done|]. rewrite sort_insert_perm. constructor; [|done].
      unfold by_index.
      destruct (Z.leb_spec (ascending (Entry.index x) (Entry.index y)) 0);
        [done|].
      unfold ascending in *.
      destruct (Z.ltb_spec (Entry.index x) (Entry.index y)); [lia|].
      destruct (Z.ltb_spec (Entry.index y) (Entry.index x)); lia.
Qed.

Lemma sort_ascending xs : ascending_order (SnappingCache.sort xs).
Proof.
  induction xs as [|x xs IH]; cbn; [constructor|].
  by apply sort_insert_ascending.
Qed.

(** Ascending order read through positions. *)
Lemma ascending_order_lookup xs i j a b :
  ascending_order xs → (i ≤ j)%nat → xs !! i = Some a → xs !! j = Some b →
  (Entry.index a ≤ Entry.index b)%Z.
Proof.
  unfold ascending_order. intros Hxs. revert i j.
  induction Hxs as [|x xs Hxs IH Hx]; intros i j Hij Ha Hb; [done|].
  destruct i as [|i], j as [|j]; cbn in *; simplify_eq; try lia.
  - rewrite Forall_forall in Hx. apply Hx. by eapply list_elem_of_lookup_2.
  - eapply (IH i j); [lia|done..].
Qed.

(** ** SnappingCache: the methods *)

Lemma snapping_set_run index dimension data (this : SnappingCache.t) :
  snapping_accepts dimension this →
  SnappingCache.set index dimension data this =
  Run (Cache.mk (Cache.dimensions this)
         (prop_set dimension
            (SnappingCache.sort
               (SnappingCache.entries this dimension ++ [Entry.mk index data]))
            (Cache.cache this))
         (Cache.realm this))
      [] (Ret ()).
Proof.
  unfold snapping_accepts, SnappingCache.set, SnappingCache.entries.
  intros Haccepts. run_unfold.
  destruct (prop_get dimension (Cache.cache this)) as [xs|] eqn:Hget.
  - cbn. by rewrite Hget.
  - destruct Haccepts as [[? [=]]|Hplain]. rewrite Hplain. cbn.
    by rewrite prop_get_set_eq, prop_set_set.
Qed.

(** What is inherited under the name has no [push]. *)
Lemma snapping_set_refused index dimension data (this : SnappingCache.t) :
  ¬ snapping_accepts dimension this →
  SnappingCache.set index dimension data this = Run this [] (Throw "TypeError").
Proof.
  unfold snapping_accepts, SnappingCache.set. intros Hrefused. run_unfold.
  destruct (prop_get dimension (Cache.cache this)) as [xs|] eqn:Hget.
  - exfalso. apply Hrefused. left. by eexists.
  - destruct (inherited dimension) as [b|] eqn:Hinh.
    + cbn. by rewrite Hget.
    + exfalso. apply Hrefused. by right.
Qed.

Lemma snapping_accepts_cases dimension (this : SnappingCache.t) :
  snapping_accepts dimension this ∨ ¬ snapping_accepts dimension this.
Proof.
  unfold snapping_accepts.
  destruct (prop_get dimension (Cache.cache this)) as [xs|]; [left; left; by eexists|].
  destruct (inherited dimension) as [b|]; [|left; by right].
  right. by intros [[? [=]]|[=]].
Qed.

Lemma snapping_entries_set index dimension data (this : SnappingCache.t) :
  snapping_accepts dimension this →
  SnappingCache.entries (final (SnappingCache.set index dimension data this)) dimension
  = SnappingCache.sort (SnappingCache.entries this dimension ++ [Entry.mk index data]).
Proof.
  intros Haccepts. rewrite snapping_set_run by done.
  unfold SnappingCache.entries at 1. cbn. by rewrite prop_get_set_eq.
Qed.

Lemma snapping_prop_get_set_ne index dimension data (this : SnappingCache.t) d :
  dimension ≠ d →
  prop_get d (Cache.cache (final (SnappingCache.set index dimension data this)))
  = prop_get d (Cache.cache this).
Proof.
  intros Hne. destruct (snapping_accepts_cases dimension this) as [Hyes|Hno].
  - rewrite snapping_set_run by done. cbn. by apply prop_get_set_ne.
  - by rewrite snapping_set_refused.
Qed.

(** The loop of the binary search ends, within the fuel that [get] gives
    it, on two neighbouring positions.  A bound that has moved has been
    compared with the target. *)
Lemma snapping_search_run fuel data index lo hi (this : SnappingCache.t) :
  (lo ≤ hi)%nat → (hi < length data)%nat → (hi - lo ≤ fuel + 1)%nat →
  ∃ lo' hi',
    SnappingCache.search fuel data index lo hi this = Run this [] (Ret (lo', hi')) ∧
    (lo ≤ lo')%nat ∧ (lo' ≤ hi')%nat ∧ (hi' ≤ hi)%nat ∧ (hi' - lo' ≤ 1)%nat ∧
    (lo' ≠ lo → ∃ e, data !! lo' = Some e ∧ (Entry.index e < index)%Z) ∧
    (hi' ≠ hi → ∃ e, data !! hi' = Some e ∧ (index ≤ Entry.index e)%Z).
Proof.
  revert lo hi. induction fuel as [|fuel IH]; intros lo hi Hle Hhi Hfuel.
  - exists lo, hi. cbn [SnappingCache.search].
    destruct (Nat.ltb_spec 1 (hi - lo)); [lia|].
    split_and!; solve [done | lia | intros ?; congruence].
  - cbn [SnappingCache.search]. destruct (Nat.ltb_spec 1 (hi - lo)) as [Hgap|Hgap].
    + assert (Hmid : (lo < (lo + hi) / 2 < hi)%nat).
      { split.
        - apply Nat.div_le_lower_bound; lia.
        - apply Nat.Div0.div_lt_upper_bound; lia. }
      destruct (lookup_lt_is_Some_2 data ((lo + hi) / 2)) as [e He]; [lia|].
      unfold SnappingCache.at_. rewrite He. run_unfold.
      destruct (Z.ltb_spec (Entry.index e) index) as [Hlt|Hge].
      { destruct (IH ((lo + hi) / 2)%nat hi) as (lo' & hi' & Hrun & ? & ? & ? & ? & Hlo & Hhi');
          [lia..|].
        exists lo', hi'. rewrite Hrun. split_and!; try solve [done | lia].
        intros _. destruct (decide (lo' = (lo + hi) / 2)%nat) as [->|Hne]; eauto. }
      { destruct (IH lo ((lo + hi) / 2)%nat) as (lo' & hi' & Hrun & ? & ? & ? & ? & Hlo & Hhi');
          [lia..|].
        exists lo', hi'. rewrite Hrun. split_and!; try solve [done | lia].
        intros _. destruct (decide (hi' = (lo + hi) / 2)%nat) as [->|Hne]; eauto. }
    + exists lo, hi. split_and!; solve [done | lia | intros ?; congruence].
Qed.

(** A name that is not an own property: what is inherited under it
    decides. *)
Lemma snapping_get_inherited index dimension (this : SnappingCache.t) :
  prop_get dimension (Cache.cache this) = None →
  SnappingCache.get index dimension this =
  Run this []
    match inherited dimension with
    | None | Some (BuiltinFunction 0) => Ret None
    | Some _ => Throw "TypeError"
    end.
Proof.
  intros Hown. unfold SnappingCache.get. run_unfold. rewrite Hown.
  by destruct (inherited dimension) as [[|[|l]]|].
Qed.

Lemma snapping_get_miss index dimension (this : SnappingCache.t) :
  SnappingCache.entries this dimension = [] →
  snapping_accepts dimension this →
  SnappingCache.get index dimension this = Run this [] (Ret None).
Proof.
  unfold SnappingCache.entries, snapping_accepts.
  destruct (prop_get dimension (Cache.cache this)) as [data|] eqn:Hown.
  - cbn. intros -> _. unfold SnappingCache.get. run_unfold. by rewrite Hown.
  - intros _ [[? [=]]|Hplain]. rewrite snapping_get_inherited by done.
    by rewrite Hplain.
Qed.

(** On a dimension with entries, [get] returns one of the two neighbouring
    entries on which the search ended, the lower one unless the upper one is
    strictly closer. *)
Lemma snapping_get_run index dimension (this : SnappingCache.t) :
  let data := SnappingCache.entries this dimension in
  data ≠ [] →
  ∃ lo hi at_lo at_hi,
    data !! lo = Some at_lo ∧ data !! hi = Some at_hi ∧
    (lo ≤ hi)%nat ∧ (hi - lo ≤ 1)%nat ∧
    (lo ≠ 0%nat → (Entry.index at_lo < index)%Z) ∧
    (hi ≠ (length data - 1)%nat → (index ≤ Entry.index at_hi)%Z) ∧
    SnappingCache.get index dimension this =
    Run this []
      (Ret (Some (if (index - Entry.index at_lo <=? Entry.index at_hi - index)%Z
                  then at_lo else at_hi))).
Proof.
  unfold SnappingCache.get, SnappingCache.entries. run_unfold.
  destruct (prop_get dimension (Cache.cache this)) as [data|]; cbn [default]; [|done].
  intros Hdata.
  assert (Hlen : (0 < length data)%nat) by (destruct data; [done|cbn; lia]).
  destruct (Nat.eqb_spec (length data) 0) as [Hz|_]; [lia|].
  destruct (snapping_search_run (length data) data index 0 (length data - 1) this)
    as (lo & hi & Hrun & ? & ? & ? & ? & Hlo & Hhi); [lia..|].
  rewrite Hrun.
  destruct (lookup_lt_is_Some_2 data lo) as [at_lo Hat_lo]; [lia|].
  destruct (lookup_lt_is_Some_2 data hi) as [at_hi Hat_hi]; [lia|].
  exists lo, hi, at_lo, at_hi.
  unfold SnappingCache.at_. rewrite Hat_lo, Hat_hi. run_unfold.
  split_and!; try done.
  - intros Hne. destruct (Hlo Hne) as (e & He & ?). by simplify_eq.
  - intros Hne. destruct (Hhi Hne) as (e & He & ?). by simplify_eq.
  - by destruct (index - Entry.index at_lo <=? Entry.index at_hi - index)%Z,
      at_lo, at_hi.
Qed.

(** The arithmetic of the final choice between the two neighbours [a] and
    [b], against any other stored coordinate [x]. *)
Lemma closest_of_two (t a b x : Z) :
  (a ≤ b)%Z →
  (x ≤ a ∧ (x = a ∨ a < t))%Z ∨ (b ≤ x ∧ (x = b ∨ t ≤ b))%Z →
  let c := if (t - a <=? b - t)%Z then a else b in
  (Z.abs (c - t) ≤ Z.abs (x - t))%Z ∧
  (Z.abs (x - t) = Z.abs (c - t) → c ≤ x)%Z.
Proof. intros Hab Hx. cbn zeta. destruct (Z.leb_spec (t - a) (b - t)); lia. Qed.

Lemma snapping_get_nearest index dimension (this : SnappingCache.t) :
  let data := SnappingCache.entries this dimension in
  data ≠ [] → ascending_order data →
  ∃ e,
    SnappingCache.get index dimension this = Run this [] (Ret (Some e)) ∧
    e ∈ data ∧
    (∀ e', e' ∈ data →
       (Z.abs (Entry.index e - index) ≤ Z.abs (Entry.index e' - index))%Z) ∧
    (∀ e', e' ∈ data →
       Z.abs (Entry.index e' - index) = Z.abs (Entry.index e - index) →
       (Entry.index e ≤ Entry.index e')%Z).
Proof.
  intros data Hdata Hsorted.
  destruct (snapping_get_run index dimension this Hdata)
    as (lo & hi & at_lo & at_hi & Hat_lo & Hat_hi & Hle & Hgap & Hlo & Hhi & Hrun).
  fold data in Hat_lo, Hat_hi, Hhi.
  eexists. split; [exact Hrun|].
  assert (Hab : (Entry.index at_lo ≤ Entry.index at_hi)%Z)
    by (by eapply (ascending_order_lookup data lo hi)).
  assert (Hothers : ∀ e', e' ∈ data →
    (Entry.index e' ≤ Entry.index at_lo ∧
       (Entry.index e' = Entry.index at_lo ∨ Entry.index at_lo < index))%Z ∨
    (Entry.index at_hi ≤ Entry.index e' ∧
       (Entry.index e' = Entry.index at_hi ∨ index ≤ Entry.index at_hi))%Z).
  { intros e' [p Hp]%list_elem_of_lookup_1.
    assert (p < length data)%nat by (by eapply lookup_lt_Some).
    destruct (decide (p ≤ lo)%nat) as [Hplo|Hplo]; [left|right]; split.
    - by eapply (ascending_order_lookup data p lo).
    - destruct (decide (lo = 0)%nat) as [->|Hne]; [|right; by apply Hlo].
      left. assert (p = 0)%nat as -> by lia. by simplify_eq.
    - eapply (ascending_order_lookup data hi p); [done|lia|done..].
    - destruct (decide (hi = length data - 1)%nat) as [->|Hne]; [|right; by apply Hhi].
      left. assert (p = length data - 1)%nat as -> by lia. by simplify_eq. }
  split_and!.
  - destruct (_ <=? _)%Z; by eapply list_elem_of_lookup_2.
  - intros e' He'.
    pose proof (closest_of_two index _ _ _ Hab (Hothers e' He')) as [Hmin _].
    by destruct (_ <=? _)%Z.
  - intros e' He'.
    pose proof (closest_of_two index _ _ _ Hab (Hothers e' He')) as [_ Htie].
    by destruct (_ <=? _)%Z.
Qed.

(** Only names that objects do not inherit become own properties. *)
Lemma snapping_after_own_plain dimensions ms d :
  is_Some (prop_get d (Cache.cache (SnappingCache.after dimensions ms))) →
  inherited d = None.
Proof.
  revert d. unfold SnappingCache.after.
  apply (after_invariant SnappingCache.set
           (λ this, ∀ d, is_Some (prop_get d (Cache.cache this)) → inherited d = None)).
  - by intros d [? [=]].
  - intros this [index dimension data|] IH d; cbn [Cache.perform].
    + destruct (decide (dimension = d)) as [<-|Hne].
      * destruct (snapping_accepts_cases dimension this) as [[Hown|Hplain]|Hno].
        -- intros _. by apply IH.
        -- done.
        -- rewrite snapping_set_refused by done. apply IH.
      * rewrite snapping_prop_get_set_ne by done. apply IH.
    + rewrite invalidate_run. by intros [? [=]].
Qed.


Lemma snapping_after_ascending dimensions ms d :
  ascending_order (SnappingCache.entries (SnappingCache.after dimensions ms) d).
Proof.
  revert d. unfold SnappingCache.after.
  apply (after_invariant SnappingCache.set
           (λ this, ∀ d, ascending_order (SnappingCache.entries this d))).
  - intros d. constructor.
  - intros this [index dimension data|] IH d; cbn [Cache.perform].
    + destruct (decide (dimension = d)) as [<-|Hne].
      * destruct (snapping_accepts_cases dimension this) as [Hyes|Hno].
        -- rewrite snapping_entries_set by done. apply sort_ascending.
        -- rewrite snapping_set_refused by done. apply IH.
      * unfold SnappingCache.entries.
        rewrite snapping_prop_get_set_ne by done. apply IH.
    + constructor.
Qed.

Lemma snapping_getCombined_run start end_ dimension (this : SnappingCache.t) low high :
  SnappingCache.get start dimension this = Run this [] (Ret low) →
  SnappingCache.get end_ dimension this = Run this [] (Ret high) →
  SnappingCache.getCombined start end_ dimension this =
  match low, high with
  | Some low, Some high =>
      if (Entry.index low <? Entry.index high)%Z then
        if decide (length (Entry.data low) = length (Entry.data high))
        then Run this (diagnostics (difference (Entry.data low) (Entry.data high)))
               (Ret (Some (Combined.mk (difference (Entry.data low) (Entry.data high))
                             (Entry.index low, Entry.index high))))
        else Run this [] (Throw "low and high have to have the same length")
      else Run this [] (Ret None)
  | _, _ => Run this [] (Ret None)
  end.
Proof.
  intros Hlow Hhigh. unfold SnappingCache.getCombined.
  rewrite (bind_quiet_run _ _ _ _ Hlow). destruct low as [low|]; [|done].
  rewrite (bind_quiet_run _ _ _ _ Hhigh). destruct high as [high|]; [|done].
  destruct (Entry.index low <? Entry.index high)%Z; [|done].
  rewrite bind_run.
  destruct (decide (length (Entry.data low) = length (Entry.data high))) as [Heq|Hne].
  - rewrite (combineRanges_same_length _ _ _ Heq). cbn. by rewrite app_nil_r.
  - by rewrite (combineRanges_other_length _ _ _ Hne).
Qed.

Lemma snapping_get_some index dimension (this : SnappingCache.t) :
  SnappingCache.entries this dimension ≠ [] →
  ∃ e, SnappingCache.get index dimension this = Run this [] (Ret (Some e)) ∧
       e ∈ SnappingCache.entries this dimension.
Proof.
  intros Hdata.
  destruct (snapping_get_run index dimension this Hdata)
    as (lo & hi & at_lo & at_hi & Hat_lo & Hat_hi & _ & _ & _ & _ & Hrun).
  eexists. split; [exact Hrun|].
  destruct (_ <=? _)%Z; by eapply list_elem_of_lookup_2.
Qed.

(** C1.  On a [SnappingCache] built by any calls, for a dimension that has
    entries, [get target d] returns one of the stored entries; no stored
    coordinate is closer to [target] than the returned one, and every stored
    coordinate that is just as close is not below it.  In particular, when
    the stored coordinates are 10, 20 and 30, the targets 24 and 25 are both
    resolved to the entry at 20. *)
Theorem snapping_get_closest dimensions ms d :
  let this := SnappingCache.after dimensions ms in
  let data := SnappingCache.entries this d in
  (∀ target, data ≠ [] →
     ∃ e,
       SnappingCache.get target d this = Run this [] (Ret (Some e)) ∧
       e ∈ data ∧
       (∀ e', e' ∈ data →
          (Z.abs (Entry.index e - target) ≤ Z.abs (Entry.index e' - target))%Z) ∧
       (∀ e', e' ∈ data →
          Z.abs (Entry.index e' - target) = Z.abs (Entry.index e - target) →
          (Entry.index e ≤ Entry.index e')%Z)) ∧
  (Entry.index <$> data = [10; 20; 30]%Z →
     ∀ target, target = 24%Z ∨ target = 25%Z →
     ∃ e,
       SnappingCache.get target d this = Run this [] (Ret (Some e)) ∧
       e ∈ data ∧ Entry.index e = 20%Z).
Proof.
  intros this data.
  assert (Hgeneral : ∀ target, data ≠ [] → ∃ e,
    SnappingCache.get target d this = Run this [] (Ret (Some e)) ∧
    e ∈ data ∧
    (∀ e', e' ∈ data →
       (Z.abs (Entry.index e - target) ≤ Z.abs (Entry.index e' - target))%Z) ∧
    (∀ e', e' ∈ data →
       Z.abs (Entry.index e' - target) = Z.abs (Entry.index e - target) →
       (Entry.index e ≤ Entry.index e')%Z)).
  { intros target Hdata.
    apply snapping_get_nearest; [done|]. apply snapping_after_ascending. }
  split; [exact Hgeneral|].
  intros Hcoords target Htarget.
  destruct data as [|a [|b [|c [|? ?]]]] eqn:Hdata; try discriminate Hcoords.
  injection Hcoords as Ha Hb Hc.
  destruct (Hgeneral target) as (e & Hrun & He & Hmin & Htie); [done|].
  exists e. split_and!; [done..|].
  assert (Hin : b ∈ [a; b; c]) by (right; left).
  specialize (Hmin b Hin). specialize (Htie b Hin).
  apply elem_of_cons in He as [->|He]; [lia|].
  apply elem_of_cons in He as [->|He]; [lia|].
  apply list_elem_of_singleton in He as ->. lia.
Qed.

(** The three coordinates of the specification, set out of order. *)
Lemma snapping_get_closest_witness :
  let this := SnappingCache.after ["d"]
    [Cache.Set_ 30 "d" [3]%Z; Cache.Set_ 10 "d" [1]%Z; Cache.Set_ 20 "d" [2]%Z] in
  (∃ e, SnappingCache.get 12 "d" this = Run this [] (Ret (Some e)) ∧
        e ∈ SnappingCache.entries this "d") ∧
  (∃ e, SnappingCache.get 24 "d" this = Run this [] (Ret (Some e)) ∧
        Entry.index e = 20%Z) ∧
  (∃ e, SnappingCache.get 25 "d" this = Run this [] (Ret (Some e)) ∧
        Entry.index e = 20%Z).
Proof.
  intros this.
  destruct (snapping_get_closest ["d"]
    [Cache.Set_ 30 "d" [3]%Z; Cache.Set_ 10 "d" [1]%Z; Cache.Set_ 20 "d" [2]%Z] "d")
    as [Hgeneral Hexample].
  split_and!.
  - destruct (Hgeneral 12%Z) as (e & Hrun & He & _); [vm_compute; discriminate|].
    by exists e.
  - destruct (Hexample eq_refl 24%Z) as (e & Hrun & _ & He); [by left|].
    by exists e.
  - destruct (Hexample eq_refl 25%Z) as (e & Hrun & _ & He); [by right|].
    by exists e.
Defined.


Lemma snapping_getCombined_final start end_ d (this : SnappingCache.t) :
  final (SnappingCache.getCombined start end_ d this) = this.
Proof.
  destruct (decide (SnappingCache.entries this d = [])) as [Hnil|Hdata].
  - unfold SnappingCache.entries in Hnil.
    destruct (prop_get d (Cache.cache this)) as [data|] eqn:Hown.
    + cbn in Hnil. subst data.
      rewrite (snapping_getCombined_run _ _ _ _ None None);
        [done|apply snapping_get_miss..];
        unfold SnappingCache.entries, snapping_accepts; rewrite Hown; eauto.
    + unfold SnappingCache.getCombined.
      rewrite bind_run, snapping_get_inherited by done.
      by destruct (inherited d) as [[|[|l]]|].
  - destruct (snapping_get_some start d this Hdata) as (low & Hlow & _).
    destruct (snapping_get_some end_ d this Hdata) as (high & Hhigh & _).
    rewrite (snapping_getCombined_run _ _ _ _ _ _ Hlow Hhigh).
    by repeat case_match.
Qed.







(** ** hasFullData *)

Lemma simple_hasFullData_from_run index dimensions (this : SimpleCache.t) :
  ∃ b,
    SimpleCache.hasFullData_from index dimensions this = Run this [] (Ret b) ∧
    (b = true ↔
     ∀ d, d ∈ dimensions →
       is_Some (SimpleCache.property index (SimpleCache.resolve d this) this)).
Proof.
  induction dimensions as [|d dimensions (b & Hrun & Hb)].
  - exists true. split; [done|]. split; [|done]. by intros _ d ?%elem_of_nil.
  - cbn [SimpleCache.hasFullData_from].
    rewrite (bind_quiet_run _ _ _ _ (simple_get_run _ _ _)).
    destruct (SimpleCache.property index _ this) as [v|] eqn:Hd.
    + exists b. split; [done|]. rewrite Hb. split.
      * intros Hrest d' [->|?]%elem_of_cons; [|by apply Hrest].
        rewrite Hd. by eexists.
      * intros Hall d' Hd'. apply Hall. by right.
    + exists false. split; [done|]. split; [done|].
      intros Hall. destruct (Hall d) as [v Hv]; [by left|]. congruence.
Qed.

Lemma simple_hasFullData_run index (this : SimpleCache.t) :
  SimpleCache.hasFullData index this =
  SimpleCache.hasFullData_from index (Cache.dimensions this) this.
Proof.
  unfold SimpleCache.hasFullData. run_unfold.
  by destruct (SimpleCache.hasFullData_from _ _ _).
Qed.


(** On ascending entries, [get] lands on [index] exactly when some entry has
    that coordinate. *)
Lemma snapping_get_exact index d (this : SnappingCache.t) :
  ascending_order (SnappingCache.entries this d) →
  ∃ res,
    SnappingCache.get index d this = Run this [] res ∧
    (res = Throw "TypeError" ∨ ∃ r, res = Ret r) ∧
    (snapping_accepts d this → ∃ r, res = Ret r) ∧
    ((∃ e, res = Ret (Some e) ∧ Entry.index e = index) ↔
     (∃ e, e ∈ SnappingCache.entries this d ∧ Entry.index e = index)).
Proof.
  intros Hsorted.
  destruct (decide (SnappingCache.entries this d = [])) as [Hnil|Hdata].
  - assert (∀ res : outcome (option Entry.t),
      (res = Throw "TypeError" ∨ res = Ret None) →
      (∃ e, res = Ret (Some e) ∧ Entry.index e = index) ↔
      (∃ e, e ∈ SnappingCache.entries this d ∧ Entry.index e = index)) as Hiff.
    { intros res Hres. rewrite Hnil. split.
      - by intros (? & -> & _); destruct Hres.
      - by intros (? & ?%elem_of_nil & _). }
    destruct (prop_get d (Cache.cache this)) as [data|] eqn:Hown.
    + exists (Ret None). split_and!; [|by eauto..|by apply Hiff; right].
      apply snapping_get_miss; [done|]. left. by eexists.
    + eexists. split; [by apply snapping_get_inherited|].
      unfold snapping_accepts. rewrite Hown.
      destruct (inherited d) as [[|[|l]]|]; split_and!; eauto;
        try (by intros [[? [=]]|[=]]); apply Hiff; eauto.
  - destruct (snapping_get_nearest index d this Hdata Hsorted)
      as (e & Hrun & He & Hmin & _).
    exists (Ret (Some e)). split_and!; [done|by eauto|by eauto|]. split.
    + intros (? & [= <-] & ?). by exists e.
    + intros (e' & He' & Hexact). exists e. split; [done|].
      specialize (Hmin e' He'). lia.
Qed.

Lemma snapping_hasFullData_from_run index dimensions (this : SnappingCache.t) :
  (∀ d, ascending_order (SnappingCache.entries this d)) →
  ∃ res,
    SnappingCache.hasFullData_from index dimensions this = Run this [] res ∧
    (res = Throw "TypeError" ∨ ∃ b, res = Ret b) ∧
    ((∀ d, d ∈ dimensions → snapping_accepts d this) → ∃ b, res = Ret b) ∧
    (res = Ret true ↔
     ∀ d, d ∈ dimensions →
       ∃ e, e ∈ SnappingCache.entries this d ∧ Entry.index e = index).
Proof.
  intros Hsorted.
  induction dimensions as [|d dimensions (res & Hrun & Hkind & Hreturns & Hres)].
  - exists (Ret true). split_and!; [done|by eauto|by eauto|].
    split; [|done]. by intros _ d ?%elem_of_nil.
  - cbn [SnappingCache.hasFullData_from].
    destruct (snapping_get_exact index d this (Hsorted d))
      as (got & Hget & Hgot & Haccepted & Hexact).
    rewrite bind_run, Hget.
    destruct Hgot as [->|[r ->]].
    { exists (Throw "TypeError"). split_and!; [done|by left| |].
      - intros Hall. destruct Haccepted as [? [=]]. apply Hall. by left.
      - split; [done|]. intros Hall.
        destruct (Hall d) as [e' He']; [by left|].
        by destruct (proj2 Hexact (ex_intro _ e' He')) as (? & [=] & _). }
    destruct r as [e|];
      [destruct (bool_decide_reflect (Entry.index e ≠ index)) as [Hne|Heq]|].
    + exists (Ret false). split_and!; [done|by eauto|by eauto|].
      split; [done|]. intros Hall.
      destruct (Hall d) as [e' He']; [by left|].
      destruct (proj2 Hexact (ex_intro _ e' He')) as (? & [= <-] & ?). done.
    + exists res. rewrite Hrun. split_and!; [done|done| |].
      * intros Hall. apply Hreturns. intros d' Hd'. apply Hall. by right.
      * rewrite Hres. split.
        -- intros Hrest d' [->|?]%elem_of_cons; [|by apply Hrest].
           apply Hexact. exists e. split; [done|].
           by destruct (decide (Entry.index e = index)).
        -- intros Hall d' Hd'. apply Hall. by right.
    + exists (Ret false). split_and!; [done|by eauto|by eauto|].
      split; [done|]. intros Hall.
      destruct (Hall d) as [e' He']; [by left|].
      by destruct (proj2 Hexact (ex_intro _ e' He')) as (? & [=] & _).
Qed.

Lemma snapping_hasFullData_run index (this : SnappingCache.t) :
  SnappingCache.hasFullData index this =
  SnappingCache.hasFullData_from index (Cache.dimensions this) this.
Proof.
  unfold SnappingCache.hasFullData. run_unfold.
  by destruct (SnappingCache.hasFullData_from _ _ _).
Qed.

Lemma simple_after_dimensions dimensions ms :
  Cache.dimensions (SimpleCache.after dimensions ms) = dimensions.
Proof.
  unfold SimpleCache.after.
  apply (after_invariant SimpleCache.set (λ this, Cache.dimensions this = dimensions));
    [done|].
  intros this [index dimension data|] Hthis; cbn [Cache.perform]; [|done].
  rewrite simple_set_run. unfold simple_assigned. cbn [final].
  by destruct (SimpleCache.resolve dimension this).
Qed.

Lemma snapping_after_dimensions dimensions ms :
  Cache.dimensions (SnappingCache.after dimensions ms) = dimensions.
Proof.
  unfold SnappingCache.after.
  apply (after_invariant SnappingCache.set (λ this, Cache.dimensions this = dimensions));
    [done|].
  intros this [index dimension data|] Hthis; cbn [Cache.perform]; [|done].
  destruct (snapping_accepts_cases dimension this) as [Hyes|Hno].
  - by rewrite snapping_set_run.
  - by rewrite snapping_set_refused.
Qed.




(** ** invalidate *)




(** ** The order of [Object.keys] *)

Section key_order.
Context {V : Type}.
Implicit Types (o : obj V) (name k : string) (v : V) (ks idx oth : list string).




End key_order.





Section after_keys.
Context {V R : Type}.
Variable set : Z → string → list Z → M (Cache.t V R) ().
Variable r : R.
Hypothesis set_cache : ∀ dimensions ms index dimension data,
  plain_sets ms → inherited dimension = None →
  ∃ v, Cache.cache (final (set index dimension data (Cache.after set r dimensions ms)))
       = prop_set dimension v (Cache.cache (Cache.after set r dimensions ms)).



End after_keys.

(** ** getAllCombined *)

Lemma omap_id_fmap {A B} (f : A → option B) (xs : list A) :
  omap id (f <$> xs) = omap f xs.
Proof.
  induction xs as [|x xs IH]; cbn; [done|]. rewrite IH. by destruct (f x).
Qed.


Section getAllCombined_facts.
Context {V R : Type}.
Variable getCombined : Z → Z → string → M (Cache.t V R) (option Combined.t).


Lemma getAllCombined_run start end_ (this : Cache.t V R) :
  (∀ d, final (getCombined start end_ d this) = this) →
  (∀ d, d ∈ keys (Cache.cache this) →
     ∃ r, result (getCombined start end_ d this) = Ret r) →
  result (Cache.getAllCombined getCombined start end_ this)
  = Ret (omap (found getCombined start end_ this) (keys (Cache.cache this))).
Proof.
  intros Hfinal Hreturns. unfold Cache.getAllCombined.
  rewrite (bind_quiet_run _ _ _ (keys (Cache.cache this))) by reflexivity.
  rewrite bind_run.
  rewrite (mapM_run _ (λ d, console (getCombined start end_ d this))
             (found getCombined start end_ this)).
  - cbn. by rewrite omap_id_fmap.
  - intros d Hd. rewrite bind_run. unfold found.
    specialize (Hfinal d). destruct (Hreturns d Hd) as [r' Hr].
    destruct (getCombined start end_ d this) as [s l res]. cbn in *. subst s res.
    destruct r'; cbn; by rewrite app_nil_r.
Qed.


End getAllCombined_facts.








(** * Further properties of the code *)

(** ** SimpleCache: what a [set] changes *)

(** X1.  After [set index dimension data] the exact lookup finds [data] at
    that place.  When nothing was written into the realm and objects do not
    inherit the dimension name, it finds at every other place what it found
    before. *)
Theorem simple_get_after_set (this : SimpleCache.t) index dimension data index' dimension' :
  let this' := final (SimpleCache.set index dimension data this) in
  SimpleCache.get index dimension this'
  = Run this' [] (Ret (Some (VArray (Arr.pure data)))) ∧
  (Cache.realm this = Realm.clean → inherited dimension = None →
   SimpleCache.get index' dimension' this' =
   Run this' []
     (if decide (dimension = dimension' ∧ index = index')
      then Ret (Some (VArray (Arr.pure data)))
      else result (SimpleCache.get index' dimension' this))).
Proof.
  cbn zeta. rewrite simple_set_run. cbn [final]. rewrite !simple_get_run.
  split; [by rewrite simple_read_back|].
  intros Hclean Hplain. cbn [result].
  rewrite (simple_clean_property _ _ this) by done.
  rewrite simple_clean_property by (by rewrite simple_clean_assigned).
  rewrite simple_clean_lookup_assigned by done.
  by case_decide.
Qed.

Lemma simple_get_after_set_witness :
  let this := SimpleCache.after ["a"] [Cache.Set_ 0 "a" [1]%Z] in
  let this' := final (SimpleCache.set 1 "b" [2]%Z this) in
  SimpleCache.get 0 "a" this' = Run this' [] (Ret (Some (VArray (Arr.pure [1]%Z)))).
Proof.
  intros this this'.
  destruct (simple_get_after_set this 1%Z "b" [2]%Z 0%Z "a") as [_ Hother].
  apply Hother; reflexivity.
Defined.

(** ** invalidate: the calls before it do not matter *)

(** X2.  A [SnappingCache] on which [invalidate] was called is, whatever
    was set before, the cache that the later calls alone build from a new
    instance; and so is a [SimpleCache], when the calls before the
    [invalidate] were on names that objects do not inherit. *)
Theorem invalidate_forgets dimensions ms ms' :
  (plain_sets ms →
   SimpleCache.after dimensions (ms ++ Cache.Invalidate :: ms')
   = SimpleCache.after dimensions ms') ∧
  SnappingCache.after dimensions (ms ++ Cache.Invalidate :: ms')
  = SnappingCache.after dimensions ms'.
Proof.
  unfold SimpleCache.after, SnappingCache.after.
  rewrite !after_app. cbn [fold_left Cache.perform].
  rewrite !invalidate_run. cbn [final].
  pose proof (simple_after_dimensions dimensions ms) as Hsimple.
  pose proof (snapping_after_dimensions dimensions ms) as Hsnapping.
  pose proof (simple_after_clean dimensions ms) as Hclean.
  unfold SimpleCache.after, SnappingCache.after in *.
  rewrite Hsimple, Hsnapping. split.
  - intros Hplain. by rewrite Hclean.
  - by destruct (Cache.realm (Cache.after SnappingCache.set () dimensions ms)).
Qed.

Lemma invalidate_forgets_witness :
  SimpleCache.after ["a"] ([Cache.Set_ 0 "a" [1]%Z] ++ Cache.Invalidate :: [])
  = SimpleCache.after ["a"] [].
Proof.
  destruct (invalidate_forgets ["a"] [Cache.Set_ 0 "a" [1]%Z] []) as [Hsimple _].
  apply Hsimple. repeat constructor.
Defined.

(** ** SnappingCache.get: bounds and ends of the array *)

Lemma snapping_get_total index d (this : SnappingCache.t) :
  snapping_accepts d this →
  ∃ r, SnappingCache.get index d this = Run this [] (Ret r).
Proof.
  intros Haccepts.
  destruct (decide (SnappingCache.entries this d = [])) as [Hnil|Hdata].
  - exists None. by apply snapping_get_miss.
  - destruct (snapping_get_some index d this Hdata) as (e & Hrun & _). by eexists.
Qed.

Lemma snapping_get_in index d (this : SnappingCache.t) e :
  SnappingCache.get index d this = Run this [] (Ret (Some e)) →
  e ∈ SnappingCache.entries this d.
Proof.
  intros Hrun.
  destruct (decide (SnappingCache.entries this d = [])) as [Hnil|Hne].
  - exfalso. unfold SnappingCache.entries in Hnil.
    destruct (prop_get d (Cache.cache this)) as [data|] eqn:Hown.
    + cbn in Hnil. subst data.
      rewrite snapping_get_miss in Hrun; [done| |left; by eexists].
      unfold SnappingCache.entries. by rewrite Hown.
    + rewrite snapping_get_inherited in Hrun by done.
      by destruct (inherited d) as [[|[|l]]|].
  - destruct (snapping_get_some index d this Hne) as (e1 & Hrun1 & He1). congruence.
Qed.

(** X3.  On any cache value, sorted or not, [get] on a name that is an own
    property of the store or that objects do not inherit reads the array
    inside its bounds and its loop ends: the call returns, null exactly
    when the dimension has no entry and otherwise one of the entries,
    writes nothing and leaves the cache as it was.  On any other name it
    returns null when a function of length 0 is inherited under the name
    and throws a [TypeError] otherwise. *)
Theorem snapping_get_safe (this : SnappingCache.t) index d :
  (snapping_accepts d this →
   ∃ r,
     SnappingCache.get index d this = Run this [] (Ret r) ∧
     (r = None ↔ SnappingCache.entries this d = []) ∧
     (∀ e, r = Some e → e ∈ SnappingCache.entries this d)) ∧
  (∀ b, prop_get d (Cache.cache this) = None → inherited d = Some b →
     SnappingCache.get index d this =
     Run this [] (if b is BuiltinFunction 0 then Ret None else Throw "TypeError")).
Proof.
  split.
  - intros Haccepts.
    destruct (decide (SnappingCache.entries this d = [])) as [Hnil|Hdata].
    + exists None. split_and!; [by apply snapping_get_miss|done|done].
    + destruct (snapping_get_some index d this Hdata) as (e & Hrun & He).
      exists (Some e). split_and!; [done|done|by intros ? [= <-]].
  - intros b Hown Hinh. rewrite snapping_get_inherited by done. rewrite Hinh.
    by destruct b as [|[|l]].
Qed.

Lemma snapping_get_safe_witness :
  let this : SnappingCache.t :=
    Cache.mk [] [("a", [Entry.mk 30 [3]%Z; Entry.mk 10 [1]%Z; Entry.mk 20 [2]%Z])] () in
  ∃ e, SnappingCache.get 12 "a" this = Run this [] (Ret (Some e)) ∧
       e ∈ SnappingCache.entries this "a".
Proof.
  intros this. destruct (snapping_get_safe this 12%Z "a") as [Hsafe _].
  destruct Hsafe as (r & Hrun & Hnone & Hsome); [right; reflexivity|].
  destruct r as [e|].
  - exists e. split; [done|]. by apply Hsome.
  - exfalso. by pose proof (proj1 Hnone eq_refl).
Defined.

(** X4.  There is no largest snapping distance.  A target at or below every
    stored coordinate is resolved to the first entry of the array, a target
    above every stored coordinate to the last one, and a single entry is
    returned for every target. *)
Theorem snapping_get_clamps (this : SnappingCache.t) target d first rest :
  SnappingCache.entries this d = first :: rest →
  ((∀ e, e ∈ first :: rest → (target ≤ Entry.index e)%Z) →
   SnappingCache.get target d this = Run this [] (Ret (Some first))) ∧
  ((∀ e, e ∈ first :: rest → (Entry.index e < target)%Z) →
   SnappingCache.get target d this
   = Run this [] (Ret (Some (default first (last rest))))) ∧
  (rest = [] →
   SnappingCache.get target d this = Run this [] (Ret (Some first))).
Proof.
  intros Hdata.
  assert (Hne : SnappingCache.entries this d ≠ []) by (by rewrite Hdata).
  destruct (snapping_get_run target d this Hne)
    as (lo & hi & at_lo & at_hi & Hat_lo & Hat_hi & Hle & Hgap & Hlo & Hhi & Hrun).
  rewrite Hdata in Hat_lo, Hat_hi, Hhi. rewrite Hrun. clear Hrun.
  assert (Hin_lo : at_lo ∈ first :: rest) by (by eapply list_elem_of_lookup_2).
  assert (Hin_hi : at_hi ∈ first :: rest) by (by eapply list_elem_of_lookup_2).
  split_and!.
  - intros Hall. pose proof (Hall _ Hin_lo). pose proof (Hall _ Hin_hi).
    destruct (decide (lo = 0)%nat) as [->|Hne0]; [|specialize (Hlo Hne0); lia].
    cbn in Hat_lo. injection Hat_lo as ->.
    by destruct (Z.leb_spec (target - Entry.index at_lo) (Entry.index at_hi - target));
      [|lia].
  - intros Hall. pose proof (Hall _ Hin_lo). pose proof (Hall _ Hin_hi).
    destruct (decide (hi = length (first :: rest) - 1)%nat) as [->|Hne'];
      [|specialize (Hhi Hne'); lia].
    destruct (Z.leb_spec (target - Entry.index at_lo) (Entry.index at_hi - target));
      [lia|].
    do 3 f_equal. rewrite last_lookup.
    change (length (first :: rest) - 1)%nat with (length rest - 0)%nat in Hat_hi.
    rewrite Nat.sub_0_r in Hat_hi.
    destruct rest as [|r rest'].
    + cbn in Hat_hi. by injection Hat_hi.
    + cbn [length pred]. cbn [length] in Hat_hi.
      rewrite lookup_cons_ne_0 in Hat_hi by done. cbn [pred] in Hat_hi.
      by rewrite Hat_hi.
  - intros ->. apply list_elem_of_singleton in Hin_lo, Hin_hi. subst.
    by destruct (_ <=? _)%Z.
Qed.

Lemma snapping_get_clamps_witness :
  let this := SnappingCache.after ["a"]
    [Cache.Set_ 30 "a" [3]%Z; Cache.Set_ 10 "a" [1]%Z; Cache.Set_ 20 "a" [2]%Z] in
  SnappingCache.get (-1000) "a" this = Run this [] (Ret (Some (Entry.mk 10 [1]%Z))) ∧
  SnappingCache.get 1000 "a" this = Run this [] (Ret (Some (Entry.mk 30 [3]%Z))) ∧
  (let one := SnappingCache.after ["a"] [Cache.Set_ 30 "a" [3]%Z] in
   SnappingCache.get 1000000 "a" one = Run one [] (Ret (Some (Entry.mk 30 [3]%Z)))).
Proof.
  intros this. split_and!.
  - destruct (snapping_get_clamps this (-1000)%Z "a" (Entry.mk 10 [1]%Z)
                [Entry.mk 20 [2]%Z; Entry.mk 30 [3]%Z] eq_refl) as (Hlow & _ & _).
    apply Hlow. intros e He.
    repeat (apply elem_of_cons in He as [Heq|He]; [subst e; cbn; lia|]).
    by apply elem_of_nil in He.
  - destruct (snapping_get_clamps this 1000%Z "a" (Entry.mk 10 [1]%Z)
                [Entry.mk 20 [2]%Z; Entry.mk 30 [3]%Z] eq_refl) as (_ & Hhigh & _).
    apply Hhigh. intros e He.
    repeat (apply elem_of_cons in He as [Heq|He]; [subst e; cbn; lia|]).
    by apply elem_of_nil in He.
  - intros one.
    destruct (snapping_get_clamps one 1000000%Z "a" (Entry.mk 30 [3]%Z) [] eq_refl)
      as (_ & _ & Hone).
    by apply Hone.
Defined.

(** ** SnappingCache.get: which of several entries at one coordinate *)

Lemma snapping_get_first (this : SnappingCache.t) target d p e :
  ascending_order (SnappingCache.entries this d) →
  SnappingCache.entries this d !! p = Some e →
  Entry.index e = target →
  (∀ q e', (q < p)%nat → SnappingCache.entries this d !! q = Some e' →
           Entry.index e' ≠ target) →
  SnappingCache.get target d this = Run this [] (Ret (Some e)).
Proof.
  intros Hsorted Hp He Hfirst.
  assert (Hne : SnappingCache.entries this d ≠ []).
  { intros Hnil. by rewrite Hnil in Hp. }
  destruct (snapping_get_run target d this Hne)
    as (lo & hi & at_lo & at_hi & Hat_lo & Hat_hi & Hle & Hgap & Hlo & Hhi & Hrun).
  rewrite Hrun. do 2 f_equal.
  pose proof (lookup_lt_Some _ _ _ Hp) as Hp_len.
  assert (Hlo_p : (p ≤ lo)%nat → (target ≤ Entry.index at_lo)%Z).
  { intros. rewrite <- He. by eapply (ascending_order_lookup _ p lo). }
  assert (Hp_hi : (hi ≤ p)%nat → (Entry.index at_hi ≤ target)%Z).
  { intros. rewrite <- He. by eapply (ascending_order_lookup _ hi p). }
  assert (Hab : (Entry.index at_lo ≤ Entry.index at_hi)%Z)
    by (by eapply (ascending_order_lookup _ lo hi)).
  assert (Hlo0 : (target ≤ Entry.index at_lo)%Z → lo = 0%nat).
  { intros. destruct (decide (lo = 0%nat)) as [|Hne0]; [done|].
    specialize (Hlo Hne0). lia. }
  assert (Hbelow : (Entry.index at_lo < target)%Z → (hi ≤ p)%nat).
  { intros. destruct (decide (p ≤ lo)%nat) as [Hple|]; [|lia].
    specialize (Hlo_p Hple). lia. }
  destruct (Z.leb_spec (target - Entry.index at_lo) (Entry.index at_hi - target))
    as [Hcloser|Hcloser].
  - destruct (decide (Entry.index at_lo < target)%Z) as [Hlt|Hge].
    + specialize (Hp_hi (Hbelow Hlt)). lia.
    + assert (lo = 0%nat) as -> by (apply Hlo0; lia).
      destruct (decide (p = 0%nat)) as [->|Hp0]; [congruence|].
      exfalso. apply (Hfirst 0%nat at_lo); [lia|done|].
      assert (target ≤ Entry.index at_lo)%Z by lia.
      assert (Entry.index at_lo ≤ Entry.index e)%Z
        by (eapply (ascending_order_lookup _ 0%nat p); [done|lia|done..]).
      lia.
  - destruct (decide (Entry.index at_lo < target)%Z) as [Hlt|Hge]; [|lia].
    pose proof (Hbelow Hlt) as Hhi_p. specialize (Hp_hi Hhi_p).
    destruct (decide (hi = p)) as [->|Hne_p]; [congruence|].
    exfalso. apply (Hfirst hi at_hi); [lia|done|].
    assert (hi ≠ length (SnappingCache.entries this d) - 1)%nat as Hinner by lia.
    specialize (Hhi Hinner). lia.
Qed.

(** X5.  Among several entries with the target's coordinate, [get] returns the
    one at the lowest position of the array. *)
Theorem snapping_get_first_of_duplicates dimensions ms target d p e :
  let this := SnappingCache.after dimensions ms in
  SnappingCache.entries this d !! p = Some e →
  Entry.index e = target →
  (∀ q e', (q < p)%nat → SnappingCache.entries this d !! q = Some e' →
           Entry.index e' ≠ target) →
  SnappingCache.get target d this = Run this [] (Ret (Some e)).
Proof.
  intros this. apply snapping_get_first, snapping_after_ascending.
Qed.

Lemma snapping_get_first_of_duplicates_witness :
  let this := SnappingCache.after []
    [Cache.Set_ 20 "a" [1]%Z; Cache.Set_ 10 "a" [0]%Z; Cache.Set_ 20 "a" [2]%Z;
     Cache.Set_ 20 "a" [3]%Z] in
  SnappingCache.get 20 "a" this = Run this [] (Ret (Some (Entry.mk 20 [1]%Z))).
Proof.
  intros this.
  apply (snapping_get_first_of_duplicates [] _ 20%Z "a" 1%nat); [reflexivity..|].
  intros q e' Hq He'. assert (q = 0%nat) as -> by lia.
  vm_compute in He'. injection He' as <-. discriminate.
Defined.

(** ** SnappingCache: snapping keeps the order of the boundaries *)

(** X7.  For [start ≤ end] the entry that [start] is resolved to is never above
    the one for [end].  So [getCombined] on a dimension with entries is
    null exactly when both boundaries are resolved to the same coordinate. *)
Theorem snapping_get_monotone dimensions ms d start end_ :
  let this := SnappingCache.after dimensions ms in
  (start ≤ end_)%Z →
  SnappingCache.entries this d ≠ [] →
  ∃ low high,
    SnappingCache.get start d this = Run this [] (Ret (Some low)) ∧
    SnappingCache.get end_ d this = Run this [] (Ret (Some high)) ∧
    (Entry.index low ≤ Entry.index high)%Z ∧
    (result (SnappingCache.getCombined start end_ d this) = Ret None ↔
     Entry.index low = Entry.index high).
Proof.
  intros this Hle Hne.
  pose proof (snapping_after_ascending dimensions ms d) as Hsorted. fold this in Hsorted.
  destruct (snapping_get_nearest start d this Hne Hsorted)
    as (low & Hlow & Hlow_in & Hlow_min & Hlow_tie).
  destruct (snapping_get_nearest end_ d this Hne Hsorted)
    as (high & Hhigh & Hhigh_in & Hhigh_min & _).
  exists low, high.
  assert (Hmono : (Entry.index low ≤ Entry.index high)%Z).
  { specialize (Hlow_min high Hhigh_in). specialize (Hlow_tie high Hhigh_in).
    specialize (Hhigh_min low Hlow_in). lia. }
  split_and!; [done..|].
  rewrite (snapping_getCombined_run _ _ _ _ _ _ Hlow Hhigh).
  destruct (Z.ltb_spec (Entry.index low) (Entry.index high)) as [Hlt|Hge].
  - destruct (decide _); cbn; split; (discriminate || lia).
  - cbn. split; [lia|done].
Qed.

Lemma snapping_get_monotone_witness :
  let this := SnappingCache.after ["a"]
    [Cache.Set_ 0 "a" [10; 20]%Z; Cache.Set_ 100 "a" [50; 80]%Z] in
  result (SnappingCache.getCombined 10 40 "a" this) = Ret None.
Proof.
  intros this.
  destruct (snapping_get_monotone ["a"]
    [Cache.Set_ 0 "a" [10; 20]%Z; Cache.Set_ 100 "a" [50; 80]%Z] "a" 10%Z 40%Z)
    as (low & high & Hlow & Hhigh & _ & Hnull); [lia|discriminate|].
  apply Hnull. vm_compute in Hlow. vm_compute in Hhigh.
  injection Hlow as <-. injection Hhigh as <-. reflexivity.
Defined.

(** X8.  The coordinate that a target is resolved to is resolved to itself. *)
Theorem snapping_get_idempotent dimensions ms target d e :
  let this := SnappingCache.after dimensions ms in
  SnappingCache.get target d this = Run this [] (Ret (Some e)) →
  ∃ e',
    SnappingCache.get (Entry.index e) d this = Run this [] (Ret (Some e')) ∧
    Entry.index e' = Entry.index e.
Proof.
  intros this Hrun.
  pose proof (snapping_after_ascending dimensions ms d) as Hsorted. fold this in Hsorted.
  apply snapping_get_in in Hrun.
  destruct (snapping_get_exact (Entry.index e) d this Hsorted)
    as (res & Hget & _ & _ & Hexact).
  destruct (proj2 Hexact (ex_intro _ e (conj Hrun eq_refl))) as (e' & -> & He').
  by exists e'.
Qed.

Lemma snapping_get_idempotent_witness :
  let this := SnappingCache.after ["a"]
    [Cache.Set_ 0 "a" [10; 20]%Z; Cache.Set_ 100 "a" [50; 80]%Z] in
  ∃ e', SnappingCache.get 100 "a" this = Run this [] (Ret (Some e')) ∧
        Entry.index e' = 100%Z.
Proof.
  intros this.
  apply (snapping_get_idempotent ["a"] _ 77%Z "a" (Entry.mk 100 [50; 80]%Z)).
  reflexivity.
Defined.

(** ** SnappingCache.getDebugData *)

Lemma concat_nils {A B} (xs : list A) : concat ((λ _, @nil B) <$> xs) = [].
Proof. by induction xs. Qed.

Lemma snapping_getDebugData_run (this : SnappingCache.t) :
  SnappingCache.getDebugData this =
  Run this []
    (Ret ((λ d, DebugData.mk d (Entry.index <$> SnappingCache.entries this d))
            <$> keys (Cache.cache this))).
Proof.
  unfold SnappingCache.getDebugData.
  rewrite (bind_quiet_run _ _ _ (keys (Cache.cache this))) by reflexivity.
  rewrite (mapM_run _ (λ _, [])
    (λ d, DebugData.mk d (Entry.index <$> SnappingCache.entries this d))).
  - by rewrite concat_nils.
  - intros d [data Hd]%elem_of_keys. unfold SnappingCache.entries.
    run_unfold. by rewrite Hd.
Qed.

(** The coordinates of a dimension are those that were set. *)
Lemma snapping_after_coordinates dimensions ms d :
  inherited d = None →
  Entry.index <$> SnappingCache.entries (SnappingCache.after dimensions ms) d
  ≡ₚ coordinates_set d ms.
Proof.
  intros Hplain. unfold SnappingCache.after, coordinates_set.
  induction ms as [|m ms IH] using rev_ind; [done|].
  rewrite after_snoc, fold_left_app. cbn [fold_left].
  destruct m as [index dimension data|]; cbn [Cache.perform]; [|done].
  destruct (decide (dimension = d)) as [->|Hne].
  - rewrite snapping_entries_set by (by right).
    by rewrite sort_perm, fmap_app, IH.
  - unfold SnappingCache.entries in *.
    by rewrite snapping_prop_get_set_ne.
Qed.

(** Every own property of the store was made by a [set]. *)
Lemma snapping_after_own_seen dimensions ms d :
  is_Some (prop_get d (Cache.cache (SnappingCache.after dimensions ms))) →
  d ∈ first_set_order ms.
Proof.
  unfold SnappingCache.after, first_set_order.
  induction ms as [|m ms IH] using rev_ind; [by intros [? [=]]|].
  rewrite after_snoc, fold_left_app. cbn [fold_left].
  destruct m as [index dimension data|]; cbn [Cache.perform];
    [|by intros [? [=]]].
  destruct (decide (dimension = d)) as [->|Hne].
  - intros _. case_decide; [done|]. apply elem_of_app. right. by left.
  - rewrite snapping_prop_get_set_ne by done. intros Hd%IH.
    case_decide; [done|]. apply elem_of_app. by left.
Qed.

(** X9.  [getDebugData] does not change the cache and never throws.  It lists
    the dimensions in the order of [Object.keys]; for each one it gives the
    coordinates in ascending order, and they are, with repetitions, the
    coordinates that were set for the dimension since the last
    [invalidate]: no entry is ever dropped or merged. *)
Theorem snapping_getDebugData_lists dimensions ms :
  let this := SnappingCache.after dimensions ms in
  ∃ debug,
    SnappingCache.getDebugData this = Run this [] (Ret debug) ∧
    DebugData.dimension <$> debug = keys (Cache.cache this) ∧
    (∀ item, item ∈ debug →
       StronglySorted Z.le (DebugData.caches item) ∧
       DebugData.caches item ≡ₚ coordinates_set (DebugData.dimension item) ms ∧
       DebugData.dimension item ∈ first_set_order ms).
Proof.
  intros this. eexists. split; [apply snapping_getDebugData_run|]. split.
  - rewrite <- list_fmap_compose. apply list_fmap_id.
  - intros item (d & -> & Hd)%list_elem_of_fmap. cbn. split_and!.
    + apply (StronglySorted_fmap Entry.index by_index); [done|].
      apply snapping_after_ascending.
    + apply snapping_after_coordinates.
      by apply (snapping_after_own_plain dimensions ms), elem_of_keys.
    + by apply (snapping_after_own_seen dimensions), elem_of_keys.
Qed.

Lemma snapping_getDebugData_lists_witness :
  let ms :=
    [Cache.Set_ 50 "a" [1]%Z; Cache.Invalidate; Cache.Set_ 30 "b" [3]%Z;
     Cache.Set_ 20 "a" [2]%Z; Cache.Set_ 10 "b" [1]%Z; Cache.Set_ 30 "b" [4]%Z] in
  let this := SnappingCache.after [] ms in
  SnappingCache.getDebugData this =
  Run this [] (Ret [DebugData.mk "b" [10; 30; 30]%Z; DebugData.mk "a" [20]%Z]) ∧
  [10; 30; 30]%Z ≡ₚ coordinates_set "b" ms.
Proof.
  intros ms this.
  destruct (snapping_getDebugData_lists [] ms) as (debug & Hrun & _ & Hitems).
  vm_compute in Hrun. injection Hrun as <-. split; [reflexivity|].
  destruct (Hitems (DebugData.mk "b" [10; 30; 30]%Z)) as (_ & Hperm & _); [by left|].
  exact Hperm.
Defined.

(** ** SimpleCache.getCombined: adjacent and inverted intervals *)

Lemma difference_add la lb lc :
  length la = length lb → length lb = length lc →
  zip_with Z.add (difference la lb) (difference lb lc) = difference la lc.
Proof.
  unfold difference. revert lb lc.
  induction la as [|a la IH]; intros [|b lb] [|c lc] Hab Hbc; try done.
  cbn in *. f_equal; [lia|]. apply IH; lia.
Qed.

Lemma difference_opp la lb :
  length la = length lb → Z.opp <$> difference la lb = difference lb la.
Proof.
  unfold difference. revert lb.
  induction la as [|a la IH]; intros [|b lb] Hab; try done.
  cbn in *. f_equal; [lia|]. apply IH; lia.
Qed.

(** X10.  With snapshots of one length stored at [a], [b] and [c], the deltas of
    the exact strategy add up over adjacent intervals, and the inverted
    interval is answered, with the negated deltas. *)
Theorem simple_getCombined_adds (this : SimpleCache.t) d a b c la lb lc :
  SimpleCache.stored this d a la →
  SimpleCache.stored this d b lb →
  SimpleCache.stored this d c lc →
  length la = length lb → length lb = length lc →
  ∃ ab bc,
    result (SimpleCache.getCombined a b d this) = Ret (Some (Combined.mk ab (a, b))) ∧
    result (SimpleCache.getCombined b c d this) = Ret (Some (Combined.mk bc (b, c))) ∧
    result (SimpleCache.getCombined a c d this)
    = Ret (Some (Combined.mk (zip_with Z.add ab bc) (a, c))) ∧
    result (SimpleCache.getCombined b a d this)
    = Ret (Some (Combined.mk (Z.opp <$> ab) (b, a))).
Proof.
  intros Ha%simple_stored_lookup Hb%simple_stored_lookup Hc%simple_stored_lookup Hab Hbc.
  exists (difference la lb), (difference lb lc).
  rewrite (simple_getCombined_stored a b d this la lb) by done.
  rewrite (simple_getCombined_stored b c d this lb lc) by done.
  rewrite (simple_getCombined_stored a c d this la lc) by done.
  rewrite (simple_getCombined_stored b a d this lb la) by done.
  rewrite !decide_True by congruence. cbn [result].
  by rewrite difference_add, difference_opp.
Qed.

Lemma simple_getCombined_adds_witness :
  let this := SimpleCache.after ["a"]
    [Cache.Set_ 0 "a" [10; 20]%Z; Cache.Set_ 50 "a" [30; 50]%Z;
     Cache.Set_ 100 "a" [50; 80]%Z] in
  ∃ ab bc,
    result (SimpleCache.getCombined 0 50 "a" this) = Ret (Some (Combined.mk ab (0, 50)%Z)) ∧
    result (SimpleCache.getCombined 50 100 "a" this)
    = Ret (Some (Combined.mk bc (50, 100)%Z)) ∧
    result (SimpleCache.getCombined 0 100 "a" this)
    = Ret (Some (Combined.mk (zip_with Z.add ab bc) (0, 100)%Z)) ∧
    result (SimpleCache.getCombined 50 0 "a" this)
    = Ret (Some (Combined.mk (Z.opp <$> ab) (50, 0)%Z)).
Proof.
  intros this.
  apply (simple_getCombined_adds this "a" 0%Z 50%Z 100%Z
           [10; 20]%Z [30; 50]%Z [50; 80]%Z);
    try reflexivity; apply simple_stored_lookup; vm_compute; reflexivity.
Defined.

(** ** The two strategies on the same calls *)

(** Only names that objects do not inherit become own properties. *)
Lemma simple_after_own_plain dimensions ms d :
  is_Some (prop_get d (Cache.cache (SimpleCache.after dimensions ms))) →
  inherited d = None.
Proof.
  revert d. unfold SimpleCache.after.
  apply (after_invariant SimpleCache.set
           (λ this, ∀ d, is_Some (prop_get d (Cache.cache this)) → inherited d = None)).
  - by intros d [? [=]].
  - intros this [index dimension data|] IH d; cbn [Cache.perform].
    + rewrite simple_set_run. cbn [final]. unfold simple_assigned.
      pose proof (simple_resolve_inv dimension this) as Hinv.
      destruct (SimpleCache.resolve dimension this) as [|entry|name| |k a];
        proj_simpl; try apply IH.
      * destruct (decide (dimension = d)) as [<-|Hne]; [by destruct Hinv|].
        rewrite prop_get_set_ne by done. apply IH.
      * destruct (decide (dimension = d)) as [<-|Hne].
        -- intros _. apply IH. rewrite Hinv. by eexists.
        -- rewrite prop_get_set_ne by done. apply IH.
    + rewrite invalidate_run. by intros [? [=]].
Qed.

Lemma simple_lookup_in_snapping dimensions ms d i s :
  simple_lookup (SimpleCache.after dimensions ms) d i = Some s →
  Entry.mk i s ∈ SnappingCache.entries (SnappingCache.after dimensions ms) d.
Proof.
  revert s. induction ms as [|m ms IH] using rev_ind; intros s; [done|].
  intros Hlookup.
  assert (inherited d = None) as Hplain.
  { apply (simple_after_own_plain dimensions (ms ++ [m])).
    unfold simple_lookup in Hlookup.
    destruct (prop_get d _) as [entry|]; [by eexists|done]. }
  revert Hlookup. unfold SimpleCache.after, SnappingCache.after in *.
  rewrite !after_snoc. destruct m as [index dimension data|]; cbn [Cache.perform]; [|done].
  rewrite simple_set_run. cbn [final]. rewrite simple_lookup_assigned.
  intros Hlookup.
  assert (simple_lookup (Cache.after SimpleCache.set Realm.clean dimensions ms) d i = Some s
          ∨ (dimension = d ∧ index = i ∧ data = s)) as [Hold|(-> & -> & ->)].
  { destruct (SimpleCache.resolve dimension _); try (by left);
      (case_decide as Hsame; [right; destruct Hsame; by simplify_eq|by left]). }
  - apply IH in Hold. destruct (decide (dimension = d)) as [->|Hne].
    + rewrite snapping_entries_set, sort_perm by (by right).
      apply elem_of_app. by left.
    + unfold SnappingCache.entries in *. by rewrite snapping_prop_get_set_ne.
  - rewrite snapping_entries_set, sort_perm by (by right).
    apply elem_of_app. right. by left.
Qed.

Lemma NoDup_fmap_elem_eq {A B} (f : A → B) (l : list A) x y :
  NoDup (f <$> l) → x ∈ l → y ∈ l → f x = f y → x = y.
Proof.
  intros Hnodup [i Hi]%list_elem_of_lookup_1 [j Hj]%list_elem_of_lookup_1 Hf.
  assert (i = j) as ->; [|congruence].
  apply (NoDup_lookup (f <$> l) i j (f x) Hnodup).
  - by rewrite list_lookup_fmap, Hi.
  - by rewrite list_lookup_fmap, Hj, Hf.
Qed.

(** X11.  After the same calls, in which no coordinate was set twice for [d]
    since the last [invalidate], the snapping strategy answers a request
    with [start < end], at both of whose boundaries the store of the exact
    strategy holds a snapshot for [d], exactly as the exact strategy does:
    same result, same console lines. *)
Theorem strategies_agree_on_exact_hits dimensions ms d start end_ low high :
  let simple := SimpleCache.after dimensions ms in
  let snapping := SnappingCache.after dimensions ms in
  NoDup (coordinates_set d ms) →
  SimpleCache.stored simple d start low →
  SimpleCache.stored simple d end_ high →
  (start < end_)%Z →
  result (SnappingCache.getCombined start end_ d snapping)
  = result (SimpleCache.getCombined start end_ d simple) ∧
  console (SnappingCache.getCombined start end_ d snapping)
  = console (SimpleCache.getCombined start end_ d simple).
Proof.
  intros simple snapping Hnodup Hlow%simple_stored_lookup Hhigh%simple_stored_lookup Hlt.
  assert (inherited d = None) as Hplain.
  { apply (simple_after_own_plain dimensions ms). fold simple.
    unfold simple_lookup in Hlow.
    destruct (prop_get d _) as [entry|]; [by eexists|done]. }
  rewrite <- (snapping_after_coordinates dimensions) in Hnodup by done.
  fold snapping in Hnodup.
  pose proof (snapping_after_ascending dimensions ms d) as Hsorted.
  fold snapping in Hsorted.
  assert (Hexact : ∀ i s, simple_lookup simple d i = Some s →
    SnappingCache.get i d snapping = Run snapping [] (Ret (Some (Entry.mk i s)))).
  { intros i s Hin%simple_lookup_in_snapping. fold snapping in Hin.
    assert (Hne : SnappingCache.entries snapping d ≠ []).
    { intros Hnil. rewrite Hnil in Hin. by apply elem_of_nil in Hin. }
    destruct (snapping_get_nearest i d snapping Hne Hsorted)
      as (e & Hrun & He & Hmin & _).
    specialize (Hmin _ Hin). cbn in Hmin.
    rewrite Hrun. do 3 f_equal.
    apply (NoDup_fmap_elem_eq Entry.index _ _ _ Hnodup He Hin). cbn. lia. }
  rewrite (snapping_getCombined_run _ _ _ _ _ _ (Hexact _ _ Hlow) (Hexact _ _ Hhigh)).
  rewrite (simple_getCombined_stored _ _ _ _ _ _ Hlow Hhigh).
  cbn [Entry.index Entry.data].
  rewrite (proj2 (Z.ltb_lt _ _) Hlt).
  by destruct (decide (length low = length high)).
Qed.

Lemma strategies_agree_on_exact_hits_witness :
  let ms :=
    [Cache.Set_ 0 "a" [10; 20]%Z; Cache.Set_ 100 "a" [50; 80]%Z;
     Cache.Set_ 50 "a" [30; 50]%Z] in
  result (SnappingCache.getCombined 0 100 "a" (SnappingCache.after ["a"] ms))
  = Ret (Some (Combined.mk [40; 60]%Z (0, 100)%Z)).
Proof.
  intros ms.
  destruct (strategies_agree_on_exact_hits ["a"] ms "a" 0%Z 100%Z [10; 20]%Z [50; 80]%Z)
    as [-> _]; [|apply simple_stored_lookup; vm_compute; reflexivity..|lia|reflexivity].
  by apply (bool_decide_unpack _).
Defined.

(** ** hasFullData and set *)

Lemma simple_property_realm c o (this this' : SimpleCache.t) :
  Cache.realm this' = Cache.realm this →
  SimpleCache.property c o this' = SimpleCache.property c o this.
Proof.
  intros Hrealm. unfold SimpleCache.property, SimpleCache.prototype_property.
  by rewrite Hrealm.
Qed.

Lemma simple_found_assigned c index d data (this : SimpleCache.t) d' :
  SimpleCache.resolve d this ≠ SimpleCache.ThePrototype →
  let this' := simple_assigned index d data this in
  is_Some (SimpleCache.property c (SimpleCache.resolve d' this) this) →
  is_Some (SimpleCache.property c (SimpleCache.resolve d' this') this').
Proof.
  intros Hd this'.
  assert (Hsame : d' = d →
    is_Some (SimpleCache.property c (SimpleCache.resolve d this) this) →
    is_Some (SimpleCache.property c (SimpleCache.resolve d this') this')).
  { intros _. subst this'. rewrite simple_resolve_assigned.
    unfold simple_assigned.
    destruct (SimpleCache.resolve d this) as [|entry|name| |k a] eqn:Hres; try done.
    + by intros [? [=]].
    + unfold SimpleCache.property, SimpleCache.prototype_property. proj_simpl.
      destruct (decide (index = c)) as [->|Hi].
      * rewrite lookup_insert_eq. by eexists.
      * by rewrite lookup_insert_ne.
    + unfold SimpleCache.property, SimpleCache.prototype_property. proj_simpl.
      rewrite lookup_insert_eq. cbn.
      destruct (decide (index = c)) as [->|Hi].
      * rewrite lookup_insert_eq. by eexists.
      * rewrite lookup_insert_ne by done.
        by destruct (Realm.functions (Cache.realm this) !! name).
    + unfold SimpleCache.property, SimpleCache.prototype_property. proj_simpl.
      destruct (decide (index = c)) as [->|Hi].
      * rewrite lookup_insert_eq. by eexists.
      * rewrite lookup_insert_ne by done.
        destruct (Arr.extra a !! c); [done|].
        destruct (decide (c = k)) as [->|Hk].
        -- rewrite lookup_insert_eq. repeat case_match; by eauto.
        -- by rewrite lookup_insert_ne. }
  destruct (decide (d' = d)) as [->|Hne]; [by apply Hsame|].
  pose proof (simple_resolve_inv d this) as Hinv.
  pose proof (simple_resolve_inv d' this) as Hinv'.
  subst this'. unfold simple_assigned in *.
  destruct (SimpleCache.resolve d this) as [|entry|name| |k a] eqn:Hres; try done.
  - set (this' := Cache.mk _ _ _).
    rewrite (simple_resolve_congr d' this this'); [|by apply prop_get_set_ne|done].
    by rewrite (simple_property_realm _ _ this this').
  - set (this' := Cache.mk _ _ _).
    rewrite (simple_resolve_congr d' this this'); [|by apply prop_get_set_ne|done].
    by rewrite (simple_property_realm _ _ this this').
  - destruct Hinv as (_ & -> & _).
    set (this' := Cache.mk _ _ _).
    rewrite (simple_resolve_congr d' this this'); [|done|done]. subst this'.
    destruct (SimpleCache.resolve d' this) as [|entry'|name'| |k' a'];
      unfold SimpleCache.property, SimpleCache.prototype_property; proj_simpl;
      try done.
    destruct Hinv' as (_ & -> & _). by rewrite lookup_insert_ne.
  - destruct Hinv as (Hown & Hinh & Hkey & Hk).
    set (a1 := {| Arr.base := Arr.base a; Arr.extra := <[index:=data]> (Arr.extra a) |}).
    set (this' := Cache.mk _ _ _).
    assert (∀ i, is_Some (SimpleCache.prototype_property i this) →
                 is_Some (SimpleCache.prototype_property i this')) as Hproto.
    { intros i. unfold SimpleCache.prototype_property. subst this'. proj_simpl.
      destruct (decide (i = k)) as [->|Hik].
      - rewrite lookup_insert_eq. by eauto.
      - by rewrite lookup_insert_ne. }
    assert (Realm.functions (Cache.realm this') = Realm.functions (Cache.realm this))
      as Hfun by done.
    destruct (SimpleCache.resolve d' this) as [|entry'|name'| |k' a'] eqn:Hres'.
    + by intros [? [=]].
    + rewrite (simple_resolve_own d' this' entry') by done.
      unfold SimpleCache.property. destruct (entry' !! c); [done|]. apply Hproto.
    + destruct Hinv' as (Hown' & -> & l & Hinh').
      unfold SimpleCache.resolve at 1.
      replace (Cache.cache this') with (Cache.cache this) by done.
      rewrite Hown', Hinh'. unfold SimpleCache.property. rewrite Hfun.
      destruct (_ ≫= _); [done|]. apply Hproto.
    + destruct Hinv' as (Hown' & Hinh').
      unfold SimpleCache.resolve at 1.
      replace (Cache.cache this') with (Cache.cache this) by done.
      rewrite Hown', Hinh'. unfold SimpleCache.property. apply Hproto.
    + destruct Hinv' as (Hown' & Hinh' & Hkey' & Hk').
      unfold SimpleCache.resolve at 1.
      replace (Cache.cache this') with (Cache.cache this) by done.
      rewrite Hown', Hinh', Hkey'. subst this'. proj_simpl.
      destruct (decide (k' = k)) as [->|Hkk].
      * rewrite lookup_insert_eq. simplify_eq.
        unfold SimpleCache.property. subst a1. proj_simpl.
        destruct (decide (index = c)) as [->|Hi].
        -- rewrite lookup_insert_eq. by eexists.
        -- rewrite lookup_insert_ne by done.
           destruct (Arr.extra _ !! c); [done|].
           repeat case_match; try done; intros; by apply Hproto.
      * rewrite lookup_insert_ne, Hk' by done.
        unfold SimpleCache.property.
        destruct (Arr.extra a' !! c); [done|].
        repeat case_match; try done; intros; by apply Hproto.
Qed.

Lemma inherited_prototype d : inherited d = Some ObjectPrototype → d = "__proto__".
Proof.
  unfold inherited, object_prototype. cbn [prop_get].
  repeat (case_decide; [by intros [=]|]). done.
Qed.

Lemma simple_assigned_dimensions index d data (this : SimpleCache.t) :
  Cache.dimensions (simple_assigned index d data this) = Cache.dimensions this.
Proof. unfold simple_assigned. by destruct (SimpleCache.resolve d this). Qed.

(** X12.  A [set] never turns the answer of [hasFullData] from true to
    false: for a [SnappingCache] with any arguments after any calls; for a
    [SimpleCache] with any name but [__proto__] after any calls, and with
    any arguments after calls on names that objects do not inherit. *)
Theorem set_keeps_full_data dimensions ms c index d data :
  (let this := SimpleCache.after dimensions ms in
   plain_sets ms ∨ d ≠ "__proto__" →
   result (SimpleCache.hasFullData c this) = Ret true →
   result (SimpleCache.hasFullData c (final (SimpleCache.set index d data this)))
   = Ret true) ∧
  (let this := SnappingCache.after dimensions ms in
   result (SnappingCache.hasFullData c this) = Ret true →
   result (SnappingCache.hasFullData c (final (SnappingCache.set index d data this)))
   = Ret true).
Proof.
  split; intros this.
  - intros Hcase Hfull. rewrite simple_set_run. cbn [final].
    rewrite simple_hasFullData_run in *. rewrite simple_assigned_dimensions.
    destruct (simple_hasFullData_from_run c (Cache.dimensions this) this)
      as (b & Hrun & Hb).
    rewrite Hrun in Hfull. injection Hfull as ->.
    destruct (simple_hasFullData_from_run c (Cache.dimensions this)
                (simple_assigned index d data this)) as (b' & Hrun' & Hb').
    rewrite Hrun'. cbn. f_equal. apply Hb'. intros d' Hd'.
    pose proof (proj1 Hb eq_refl d' Hd') as Hfound.
    assert (SimpleCache.resolve d this = SimpleCache.ThePrototype
            ∨ SimpleCache.resolve d this ≠ SimpleCache.ThePrototype)
      as [Hproto|Hother] by (destruct (SimpleCache.resolve d this); by eauto);
      [|by apply simple_found_assigned].
    destruct Hcase as [Hplain|Hname].
    + assert (Cache.realm this = Realm.clean) as Hclean
        by (by apply simple_after_clean).
      rewrite simple_clean_property in Hfound by done.
      destruct (simple_lookup this d' c) as [old|] eqn:Hold;
        [|by destruct Hfound as [? [=]]].
      rewrite (simple_property_stored _ _ _ old); [by eexists|].
      by rewrite simple_lookup_assigned, Hproto.
    + exfalso. apply Hname, inherited_prototype.
      pose proof (simple_resolve_inv d this) as Hinv. rewrite Hproto in Hinv.
      by destruct Hinv.
  - intros Hfull.
    set (this' := final (SnappingCache.set index d data this)).
    assert (Hthis' : this' = SnappingCache.after dimensions (ms ++ [Cache.Set_ index d data])).
    { unfold SnappingCache.after. by rewrite after_snoc. }
    rewrite snapping_hasFullData_run in *.
    assert (Hdims : Cache.dimensions this' = Cache.dimensions this).
    { rewrite Hthis'. subst this. by rewrite !snapping_after_dimensions. }
    rewrite Hdims.
    destruct (snapping_hasFullData_from_run c (Cache.dimensions this) this)
      as (res & Hrun & _ & _ & Hres); [intros; apply snapping_after_ascending|].
    rewrite Hrun in Hfull. cbn in Hfull. subst res.
    destruct (snapping_hasFullData_from_run c (Cache.dimensions this) this')
      as (res' & Hrun' & _ & _ & Hres').
    { intros d'. rewrite Hthis'. apply snapping_after_ascending. }
    rewrite Hrun'. cbn. apply Hres'. intros d' Hd'.
    destruct (proj1 Hres eq_refl d' Hd') as (e & He & Hexact).
    exists e. split; [|done]. subst this'.
    destruct (decide (d = d')) as [->|Hne].
    + destruct (snapping_accepts_cases d' this) as [Hyes|Hno].
      * rewrite snapping_entries_set, sort_perm by done. apply elem_of_app. by left.
      * by rewrite snapping_set_refused.
    + unfold SnappingCache.entries in *. by rewrite snapping_prop_get_set_ne.
Qed.

Lemma set_keeps_full_data_witness :
  let ms := [Cache.Set_ 0 "a" [10; 20]%Z; Cache.Set_ 0 "b" [5; 5]%Z] in
  result (SimpleCache.hasFullData 0
            (final (SimpleCache.set 0 "a" [1; 1]%Z (SimpleCache.after ["a"; "b"] ms))))
  = Ret true ∧
  result (SnappingCache.hasFullData 0
            (final (SnappingCache.set 1 "b" [7; 7]%Z (SnappingCache.after ["a"; "b"] ms))))
  = Ret true.
Proof.
  intros ms. split.
  - destruct (set_keeps_full_data ["a"; "b"] ms 0%Z 0%Z "a" [1; 1]%Z) as [Hsimple _].
    apply Hsimple; [|reflexivity]. left. repeat constructor.
  - destruct (set_keeps_full_data ["a"; "b"] ms 0%Z 1%Z "b" [7; 7]%Z) as [_ Hsnapping].
    apply Hsnapping. reflexivity.
Defined.

(** A [set] under [__proto__] replaces a property of [Object.prototype].
    For the declared dimension ["0"], which is no own property of the
    store, [hasFullData 0] reads element 0 of the array that
    [Object.prototype] holds under 0: 5 first, then 0, which is falsy. *)
Lemma set_proto_loses_full_data :
  let this := SimpleCache.after ["0"] [Cache.Set_ 0 "__proto__" [5]%Z] in
  result (SimpleCache.hasFullData 0 this) = Ret true ∧
  result (SimpleCache.hasFullData 0
            (final (SimpleCache.set 0 "__proto__" [0]%Z this))) = Ret false.
Proof. split; vm_compute; reflexivity. Qed.

(** ** Snapshots of one length: nothing throws *)

Lemma simple_after_lengths n dimensions ms d i s :
  snapshots_of_length n ms →
  simple_lookup (SimpleCache.after dimensions ms) d i = Some s → length s = n.
Proof.
  unfold SimpleCache.after, snapshots_of_length. revert s.
  induction ms as [|m ms IH] using rev_ind; intros s Hms; [done|].
  apply Forall_app in Hms as [Hms [Hm _]%Forall_cons].
  rewrite after_snoc. destruct m as [index dimension data|]; cbn [Cache.perform]; [|done].
  rewrite simple_set_run. cbn [final]. rewrite simple_lookup_assigned.
  destruct (SimpleCache.resolve dimension _); try (by apply IH);
    (case_decide; [by intros [= <-]|by apply IH]).
Qed.

Lemma snapping_after_lengths n dimensions ms d e :
  snapshots_of_length n ms →
  e ∈ SnappingCache.entries (SnappingCache.after dimensions ms) d →
  length (Entry.data e) = n.
Proof.
  unfold SnappingCache.after, snapshots_of_length. revert e.
  induction ms as [|m ms IH] using rev_ind; intros e Hms.
  { by intros ?%elem_of_nil. }
  apply Forall_app in Hms as [Hms [Hm _]%Forall_cons].
  rewrite after_snoc. destruct m as [index dimension data|]; cbn [Cache.perform].
  2:{ by intros ?%elem_of_nil. }
  destruct (decide (dimension = d)) as [->|Hne].
  - destruct (snapping_accepts_cases d (Cache.after SnappingCache.set () dimensions ms))
      as [Hyes|Hno].
    + rewrite snapping_entries_set, sort_perm by done.
      intros [He|He%list_elem_of_singleton]%elem_of_app; [by apply IH|by subst].
    + rewrite snapping_set_refused by done. by apply IH.
  - unfold SnappingCache.entries in *. rewrite snapping_prop_get_set_ne by done.
    by apply IH.
Qed.

(** X13.  When every snapshot given to [set] has [n] buckets, no
    [getCombined] on a name that objects do not inherit and no
    [getAllCombined] of the [SnappingCache] throws, and every result other
    than null has [n] buckets; the same holds for the [SimpleCache], with
    [getCombined] on any name, when the calls of [set] were on names that
    objects do not inherit. *)
Theorem equal_lengths_never_throw n dimensions ms start end_ :
  let simple := SimpleCache.after dimensions ms in
  let snapping := SnappingCache.after dimensions ms in
  snapshots_of_length n ms →
  (plain_sets ms →
   (∀ d, ∃ r,
      result (SimpleCache.getCombined start end_ d simple) = Ret r ∧
      ∀ c, r = Some c → length (Combined.data c) = n) ∧
   (∃ items, result (SimpleCache.getAllCombined start end_ simple) = Ret items)) ∧
  (∀ d, inherited d = None → ∃ r,
     result (SnappingCache.getCombined start end_ d snapping) = Ret r ∧
     ∀ c, r = Some c → length (Combined.data c) = n) ∧
  (∃ items, result (SnappingCache.getAllCombined start end_ snapping) = Ret items).
Proof.
  intros simple snapping Hms.
  assert (Hsnapping : ∀ d, snapping_accepts d snapping → ∃ r,
    result (SnappingCache.getCombined start end_ d snapping) = Ret r ∧
    ∀ c, r = Some c → length (Combined.data c) = n).
  { intros d Haccepts.
    destruct (snapping_get_total start d snapping Haccepts) as [low Hlow].
    destruct (snapping_get_total end_ d snapping Haccepts) as [high Hhigh].
    rewrite (snapping_getCombined_run _ _ _ _ _ _ Hlow Hhigh).
    destruct low as [low|]; [|by exists None].
    destruct high as [high|]; [|by exists None].
    destruct (_ <? _)%Z; [|by exists None].
    apply snapping_get_in, (snapping_after_lengths n) in Hlow, Hhigh; [|done..].
    rewrite decide_True by congruence. eexists. split; [done|].
    intros c [= <-]. cbn. rewrite difference_length; congruence. }
  split_and!.
  - intros Hplain.
    assert (Hsimple : ∀ d, ∃ r,
      result (SimpleCache.getCombined start end_ d simple) = Ret r ∧
      ∀ c, r = Some c → length (Combined.data c) = n).
    { intros d. rewrite simple_clean_getCombined by (by apply simple_after_clean).
      destruct (simple_lookup simple d start) as [low|] eqn:Hlow;
        [|by exists None].
      destruct (simple_lookup simple d end_) as [high|] eqn:Hhigh;
        [|by exists None].
      apply (simple_after_lengths n) in Hlow, Hhigh; [|done..].
      rewrite decide_True by congruence. eexists. split; [done|].
      intros c [= <-]. cbn. rewrite difference_length; congruence. }
    split; [done|]. eexists. apply getAllCombined_run.
    + intros d. apply simple_getCombined_final.
    + intros d _. destruct (Hsimple d) as (r & Hr & _). by exists r.
  - intros d Hplain. apply Hsnapping. by right.
  - eexists. apply getAllCombined_run.
    + intros d. apply snapping_getCombined_final.
    + intros d Hd%elem_of_keys.
      destruct (Hsnapping d) as (r & Hr & _); [by left|]. by exists r.
Qed.

Lemma equal_lengths_never_throw_witness :
  let ms :=
    [Cache.Set_ 0 "a" [10; 20]%Z; Cache.Set_ 100 "a" [50; 80]%Z;
     Cache.Set_ 0 "b" [5; 5]%Z] in
  (∃ items, result (SimpleCache.getAllCombined 0 100 (SimpleCache.after ["a"] ms))
            = Ret items) ∧
  (∃ items, result (SnappingCache.getAllCombined 0 100 (SnappingCache.after ["a"] ms))
            = Ret items).
Proof.
  intros ms.
  destruct (equal_lengths_never_throw 2 ["a"] ms 0%Z 100%Z) as (Hsimple & _ & Hsnapping).
  { repeat constructor. }
  destruct Hsimple as [_ Hsimple]; [repeat constructor|].
  by split.
Defined.

(** Snapshots of different lengths for one dimension make [getCombined]
    throw, and [getAllCombined] with it, although another dimension has an
    answer. *)
Lemma unequal_lengths_throw :
  let ms :=
    [Cache.Set_ 0 "a" [10; 20]%Z; Cache.Set_ 100 "a" [50; 80]%Z;
     Cache.Set_ 0 "b" [5]%Z; Cache.Set_ 100 "b" [9; 9]%Z] in
  result (SimpleCache.getAllCombined 0 100 (SimpleCache.after [] ms))
  = Throw "low and high have to have the same length" ∧
  result (SnappingCache.getAllCombined 0 100 (SnappingCache.after [] ms))
  = Throw "low and high have to have the same length".
Proof. split; vm_compute; reflexivity. Qed.

(** ** SimpleCache.set under an inherited name *)

(** X14.  Under a name that objects inherit and that is no own property of
    the store, [SimpleCache.set] returns without adding a property to the
    store, and what it has written is not discarded by [invalidate]: the
    exact lookup still finds the snapshot afterwards. *)
Theorem simple_set_survives_invalidate (this : SimpleCache.t) index d data b :
  prop_get d (Cache.cache this) = None →
  inherited d = Some b →
  let written := SimpleCache.set index d data this in
  let cleared := Cache.invalidate (final written) in
  result written = Ret () ∧
  Cache.cache (final written) = Cache.cache this ∧
  result cleared = Ret () ∧
  Cache.cache (final cleared) = [] ∧
  SimpleCache.get index d (final cleared)
  = Run (final cleared) [] (Ret (Some (VArray (Arr.pure data)))).
Proof.
  intros Hown Hinh written cleared. subst written cleared.
  rewrite simple_set_run. cbn [final result]. rewrite invalidate_run.
  cbn [final result].
  assert (Cache.cache (simple_assigned index d data this) = Cache.cache this)
    as Hcache.
  { unfold simple_assigned, SimpleCache.resolve. rewrite Hown, Hinh.
    by destruct b. }
  split_and!; [done..|].
  rewrite simple_get_run. do 2 f_equal.
  set (cleared := Cache.mk _ _ _).
  rewrite (simple_resolve_congr d (simple_assigned index d data this) cleared);
    [|by rewrite Hcache, Hown|done].
  rewrite (simple_property_realm _ _ (simple_assigned index d data this) cleared)
    by done.
  apply simple_read_back.
Qed.

Lemma simple_set_survives_invalidate_witness :
  let this := SimpleCache.after ["toString"] [] in
  let cleared :=
    Cache.invalidate (final (SimpleCache.set 0 "toString" [4]%Z this)) in
  Cache.cache (final cleared) = [] ∧
  SimpleCache.get 0 "toString" (final cleared)
  = Run (final cleared) [] (Ret (Some (VArray (Arr.pure [4]%Z)))).
Proof.
  intros this cleared.
  destruct (simple_set_survives_invalidate this 0%Z "toString" [4]%Z (BuiltinFunction 0))
    as (_ & _ & _ & Hcache & Hget); [reflexivity..|].
  by split.
Defined.
